(** * A shallow embedding of [memory-profile-langraph.py]

    The script builds a one-node LangGraph workflow whose node formats a
    prompt, calls a remote chat model and returns the answer, and then
    invokes that graph five times under distinct thread identifiers.

    Python dictionaries are [gmap string _], lists are [list], exceptions
    are the [Raise] outcome of a state-and-error monad whose state (the
    [World]) carries the process environment, the checkpoint store of the
    in-memory saver, the object store and a chronological event log.  The
    remote model is an oracle: a function of the log so far and of the
    messages it is sent, which either answers or raises. *)

From Stdlib Require Import Ascii String.
From stdpp Require Import gmap strings list fin_maps pretty.

Open Scope string_scope.
Open Scope list_scope.

(** ** Messages *)

Inductive MessageType := human | ai.

Record Message := mkMessage { type : MessageType; content : string }.

Definition HumanMessage (c : string) : Message :=
  {| type := human; content := c |}.

Definition AIMessage (c : string) : Message :=
  {| type := ai; content := c |}.

(** A Python dict with string keys whose values are message lists: the
    shape of [State], of the node's return value and of the graph input. *)
Abbreviation dict := (gmap string (list Message)).

(** ** Exceptions *)

Inductive Exn :=
| KeyError (key : string)
| IndexError
| TypeError
| ValueError (what : string)
| GraphRecursionError
| RemoteError (what : string).

Inductive Outcome (A : Type) :=
| Ok (a : A)
| Raise (e : Exn).
Arguments Ok {A} a.
Arguments Raise {A} e.

(** ** The chat model client *)

(** [AzureChatOpenAI(...)]: the keyword arguments of lines 20-27, which
    the client keeps once it is built.  The endpoint and the key come
    from [os.getenv] without a default and may be [None] when they are
    handed to the constructor. *)
Record AzureChatOpenAI := mkLlm {
  azure_endpoint : option string;
  api_key : option string;
  api_version : option string;
  azure_deployment : option string;
  temperature : Z;
  streaming : bool
}.

(** ** Events and the world *)

Inductive Event :=
| EnvRead (name : string)
| GraphInvoke (thread_id : string)
| NodeStart (node : string) (state : dict)
| LlmCall (client : AzureChatOpenAI) (input : list Message)
| Print (s : string)
| GcCollect.

Definition loc := nat.

(** Heap objects, for the reference-level reading of [joke_node]. *)
Inductive Obj :=
| ODict (items : gmap string loc)
| OList (elems : list loc)
| OMessage (m : Message).

Record World := mkWorld {
  environ : gmap string string;       (* os.environ *)
  dotenv : gmap string string;        (* the entries of the .env file *)
  checkpoints : gmap string dict;     (* the saver's store, by thread id *)
  heap : gmap loc Obj;
  log : list Event
}.

Definition set_environ (e : gmap string string) (w : World) : World :=
  {| environ := e; dotenv := dotenv w; checkpoints := checkpoints w;
     heap := heap w; log := log w |}.

Definition set_checkpoints (c : gmap string dict) (w : World) : World :=
  {| environ := environ w; dotenv := dotenv w; checkpoints := c;
     heap := heap w; log := log w |}.

Definition set_heap (h : gmap loc Obj) (w : World) : World :=
  {| environ := environ w; dotenv := dotenv w; checkpoints := checkpoints w;
     heap := h; log := log w |}.

Definition set_log (l : list Event) (w : World) : World :=
  {| environ := environ w; dotenv := dotenv w; checkpoints := checkpoints w;
     heap := heap w; log := l |}.

(** ** The state-and-exception monad *)

Definition M (A : Type) : Type := World -> Outcome A * World.

Definition ret {A} (a : A) : M A := fun w => (Ok a, w).

Definition bind {A B} (m : M A) (k : A -> M B) : M B :=
  fun w =>
    match m w with
    | (Ok a, w') => k a w'
    | (Raise e, w') => (Raise e, w')
    end.

Definition raise {A} (e : Exn) : M A := fun w => (Raise e, w).

Notation "'let*' x := m 'in' k" := (bind m (fun x => k))
  (at level 10, x name, m at level 100, k at level 200).

Definition emit (e : Event) : M unit :=
  fun w => (Ok tt, set_log (log w ++ [e]) w).

(** [print(s)] and [gc.collect()] are visible only through the log. *)
Definition print (s : string) : M unit := emit (Print s).
Definition gc_collect : M unit := emit GcCollect.

(** ** Python subscripting *)

(** [d[k]] on a dict. *)
Definition getitem {V} (d : gmap string V) (k : string) : M V :=
  match d !! k with
  | Some v => ret v
  | None => raise (KeyError k)
  end.

(** [l[i]] on a list: a negative index counts from the end. *)
Definition list_getitem {A} (l : list A) (i : Z) : M A :=
  let n := Z.of_nat (length l) in
  let j := if (i <? 0)%Z then (i + n)%Z else i in
  if ((0 <=? j) && (j <? n))%Z then
    match l !! Z.to_nat j with
    | Some x => ret x
    | None => raise IndexError
    end
  else raise IndexError.

(** Truth value of a list: non-empty. *)
Definition truthy {A} (l : list A) : bool :=
  match l with [] => false | _ :: _ => true end.

(** ** Prompt templates *)

(** [ChatPromptTemplate.from_template] reads an f-string style template:
    text between braces names an input variable, the rest is literal. *)
Inductive Piece :=
| Lit (s : string)
| Var (name : string).

Definition snoc (s : string) (c : ascii) : string := s +:+ String c "".

Fixpoint parse_pieces (s : string) (cur : string) (in_var : bool) : list Piece :=
  match s with
  | "" => if in_var then [Var cur] else [Lit cur]
  | String c s' =>
      if in_var then
        if Ascii.eqb c "}" then Var cur :: parse_pieces s' "" false
        else parse_pieces s' (snoc cur c) true
      else
        if Ascii.eqb c "{" then Lit cur :: parse_pieces s' "" true
        else parse_pieces s' (snoc cur c) false
  end.

Record ChatPromptTemplate := mkTemplate { pieces : list Piece }.

Definition from_template (s : string) : ChatPromptTemplate :=
  {| pieces := parse_pieces s "" false |}.

Fixpoint format_pieces (ps : list Piece) (args : gmap string string)
  : Outcome string :=
  match ps with
  | [] => Ok ""
  | Lit s :: ps' =>
      match format_pieces ps' args with
      | Ok r => Ok (s +:+ r)
      | Raise e => Raise e
      end
  | Var x :: ps' =>
      match args !! x with
      | None => Raise (KeyError x)
      | Some v =>
          match format_pieces ps' args with
          | Ok r => Ok (v +:+ r)
          | Raise e => Raise e
          end
      end
  end.

(** [prompt.invoke(args)]: a chat prompt value holding one human message. *)
Definition prompt_invoke (p : ChatPromptTemplate) (args : gmap string string)
  : M (list Message) :=
  match format_pieces (pieces p) args with
  | Ok s => ret [HumanMessage s]
  | Raise e => raise e
  end.

(** ** The state schema and the graph builder *)

Definition Reducer : Type := list Message -> list Message -> list Message.

(** [operator.add] on lists is concatenation into a new list. *)
Definition operator_add : Reducer := fun a b => a ++ b.

(** Lines 29-30: one channel, [messages], reduced with [operator.add]. *)
Definition State : gmap string Reducer := {[ "messages" := operator_add ]}.

Inductive Target :=
| Goto (node : string)
| END.

Record StateGraph := mkStateGraph {
  schema : gmap string Reducer;
  nodes : gmap string (dict -> M dict);
  entry_point : option string;
  edges : gmap string Target
}.

Definition new_StateGraph (sch : gmap string Reducer) : StateGraph :=
  {| schema := sch; nodes := ∅; entry_point := None; edges := ∅ |}.

Definition add_node (name : string) (f : dict -> M dict) (g : StateGraph)
  : StateGraph :=
  {| schema := schema g; nodes := <[name := f]> (nodes g);
     entry_point := entry_point g; edges := edges g |}.

Definition set_entry_point (name : string) (g : StateGraph) : StateGraph :=
  {| schema := schema g; nodes := nodes g;
     entry_point := Some name; edges := edges g |}.

Definition add_edge (src : string) (tgt : Target) (g : StateGraph)
  : StateGraph :=
  {| schema := schema g; nodes := nodes g;
     entry_point := entry_point g; edges := <[src := tgt]> (edges g) |}.

Inductive Checkpointer : Set := MemorySaver.

Record CompiledStateGraph := mkCompiled {
  builder : StateGraph;
  checkpointer : option Checkpointer
}.

Definition compile (g : StateGraph) (cp : option Checkpointer)
  : CompiledStateGraph :=
  {| builder := g; checkpointer := cp |}.

(** [MemorySaver()] starts with an empty store. *)
Definition new_MemorySaver : M Checkpointer :=
  fun w => (Ok MemorySaver, set_checkpoints ∅ w).

(** ** Running a graph *)

(** A node's update is folded into the state channel by channel: a written
    channel becomes [reducer old new], an unwritten one keeps its value,
    keys outside the schema are dropped.  A channel never written holds
    the empty list. *)
Definition apply_writes (sch : gmap string Reducer) (state upd : dict) : dict :=
  map_imap (fun k red =>
              let old := default [] (state !! k) in
              Some (match upd !! k with
                    | Some new => red old new
                    | None => old
                    end)) sch.

Definition get_checkpoint (g : CompiledStateGraph) (thread_id : string)
  : M dict :=
  fun w =>
    match checkpointer g with
    | Some MemorySaver => (Ok (default ∅ (checkpoints w !! thread_id)), w)
    | None => (Ok ∅, w)
    end.

Definition put_checkpoint (g : CompiledStateGraph) (thread_id : string)
    (state : dict) : M unit :=
  fun w =>
    match checkpointer g with
    | Some MemorySaver =>
        (Ok tt, set_checkpoints (<[thread_id := state]> (checkpoints w)) w)
    | None => (Ok tt, w)
    end.

(** The default [recursion_limit] of [invoke]. *)
Definition recursion_limit : nat := 25.

(** One step: the node runs on the current state and its update is folded
    into the channels. *)
Definition run_node (sch : gmap string Reducer) (name : string)
    (node : dict -> M dict) (state : dict) : M dict :=
  let* _ := emit (NodeStart name state) in
  let* upd := node state in
  ret (apply_writes sch state upd).

Fixpoint run_from (g : CompiledStateGraph) (thread_id : string) (fuel : nat)
    (cur : string) (state : dict) : M dict :=
  match fuel with
  | O => raise GraphRecursionError
  | S fuel' =>
      match nodes (builder g) !! cur with
      | None => raise (ValueError cur)
      | Some node =>
          let* state' := run_node (schema (builder g)) cur node state in
          let* _ := put_checkpoint g thread_id state' in
          match edges (builder g) !! cur with
          | Some (Goto next) => run_from g thread_id fuel' next state'
          | Some END | None => ret state'
          end
      end
  end.

(** [graph.invoke(input, config={"configurable": {"thread_id": t}})] *)
Definition invoke (g : CompiledStateGraph) (input : dict) (thread_id : string)
  : M dict :=
  let* _ := emit (GraphInvoke thread_id) in
  let* saved := get_checkpoint g thread_id in
  let state := apply_writes (schema (builder g)) saved input in
  let* _ := put_checkpoint g thread_id state in
  match entry_point (builder g) with
  | None => raise (ValueError "entry point")
  | Some start => run_from g thread_id recursion_limit start state
  end.

(** ** Loops *)

Fixpoint for_each {A} (xs : list A) (body : A -> M unit) : M unit :=
  match xs with
  | [] => ret tt
  | x :: xs' => let* _ := body x in for_each xs' body
  end.

Definition range (n : nat) : list nat := seq 0 n.

(** ** Environment *)

(** [load_dotenv()]: entries of the file are added to the environment;
    variables already set are kept. *)
Definition load_dotenv : M unit :=
  fun w => (Ok tt, set_environ (environ w ∪ dotenv w) w).

(** [os.getenv(name, default)] *)
Definition getenv (name : string) (dflt : option string) : M (option string) :=
  fun w =>
    (Ok (match environ w !! name with
         | Some v => Some v
         | None => dflt
         end),
     set_log (log w ++ [EnvRead name]) w).

(** ** The object store *)

Definition alloc (o : Obj) : M loc :=
  fun w =>
    let l := fresh (dom (heap w)) in
    (Ok l, set_heap (<[l := o]> (heap w)) w).

Definition read_dict (l : loc) : M (gmap string loc) :=
  fun w =>
    match heap w !! l with
    | Some (ODict d) => (Ok d, w)
    | _ => (Raise TypeError, w)
    end.

Definition read_list (l : loc) : M (list loc) :=
  fun w =>
    match heap w !! l with
    | Some (OList xs) => (Ok xs, w)
    | _ => (Raise TypeError, w)
    end.

Definition read_message (l : loc) : M Message :=
  fun w =>
    match heap w !! l with
    | Some (OMessage m) => (Ok m, w)
    | _ => (Raise TypeError, w)
    end.

(** ** Reading the log *)

Definition is_env_read (name : string) (e : Event) : bool :=
  match e with
  | EnvRead n => String.eqb n name
  | _ => false
  end.

Definition any_env_read (e : Event) : bool :=
  match e with
  | EnvRead _ => true
  | _ => false
  end.

(** How often [name] was read from the environment. *)
Definition env_reads (name : string) (l : list Event) : nat :=
  length (filter (fun e => is_env_read name e = true) l).

Definition is_llm_call (e : Event) : bool :=
  match e with
  | LlmCall _ _ => true
  | _ => false
  end.

(** How many requests went to the remote model. *)
Definition llm_calls (l : list Event) : nat :=
  length (filter (fun e => is_llm_call e = true) l).

(** The thread identifiers of the graph invocations, in order. *)
Fixpoint invocations (l : list Event) : list string :=
  match l with
  | [] => []
  | GraphInvoke t :: l' => t :: invocations l'
  | _ :: l' => invocations l'
  end.

(** Every graph invocation is followed by a forced collection before the
    next invocation starts and before the log ends.  [pending] tells that
    an invocation is still waiting for its collection. *)
Fixpoint gc_after_each (pending : bool) (l : list Event) : bool :=
  match l with
  | [] => negb pending
  | GraphInvoke _ :: l' => negb pending && gc_after_each true l'
  | GcCollect :: l' => gc_after_each false l'
  | _ :: l' => gc_after_each pending l'
  end.

(** The states on which a node was started. *)
Fixpoint node_starts (l : list Event) : list (string * dict) :=
  match l with
  | [] => []
  | NodeStart n st :: l' => (n, st) :: node_starts l'
  | _ :: l' => node_starts l'
  end.

(** What was printed, in order. *)
Fixpoint printed (l : list Event) : list string :=
  match l with
  | [] => []
  | Print s :: l' => s :: printed l'
  | _ :: l' => printed l'
  end.

(** The requests sent to the model, in order. *)
Fixpoint requests (l : list Event) : list (list Message) :=
  match l with
  | [] => []
  | LlmCall _ input :: l' => input :: requests l'
  | _ :: l' => requests l'
  end.

(** How many collections were forced. *)
Fixpoint collections (l : list Event) : nat :=
  match l with
  | [] => 0
  | GcCollect :: l' => S (collections l')
  | _ :: l' => collections l'
  end.

Section Program.

(** The remote model: given the events so far and the messages sent, it
    answers with a message or raises. *)
Variable remote : list Event -> list Message -> Outcome Message.

(** [llm.invoke(input)]: one request to the remote model. *)
Definition llm_invoke (llm : AzureChatOpenAI) (input : list Message)
  : M Message :=
  fun w => (remote (log w) input, set_log (log w ++ [LlmCall llm input]) w).

(** [chain = prompt | llm; chain.invoke(args)] *)
Definition chain_invoke (p : ChatPromptTemplate) (llm : AzureChatOpenAI)
    (args : gmap string string) : M Message :=
  let* value := prompt_invoke p args in
  llm_invoke llm value.

(** Line 34: the conditional expression that picks the topic. *)
Definition topic_of (state : dict) : M string :=
  let* cond := getitem state "messages" in
  if truthy cond then
    let* msgs := getitem state "messages" in
    let* m := list_getitem msgs (-1) in
    ret (content m)
  else ret "elephants".

(** Lines 33-38. *)
Definition joke_node (llm : AzureChatOpenAI) (state : dict) : M dict :=
  let* topic := topic_of state in
  let prompt := from_template "Tell me a joke about {topic}." in
  let chain := chain_invoke prompt llm in
  let* result := chain {[ "topic" := topic ]} in
  ret {[ "messages" := [result] ]}.

(** The same function over the object store: [state] is a reference to a
    dict object, the result a reference to a newly built one. *)
Definition topic_of_ref (state : loc) : M string :=
  let* d := read_dict state in
  let* lcond := getitem d "messages" in
  let* cond := read_list lcond in
  if truthy cond then
    let* d' := read_dict state in
    let* lmsgs := getitem d' "messages" in
    let* msgs := read_list lmsgs in
    let* lm := list_getitem msgs (-1) in
    let* m := read_message lm in
    ret (content m)
  else ret "elephants".

Definition joke_node_ref (llm : AzureChatOpenAI) (state : loc) : M loc :=
  let* topic := topic_of_ref state in
  let prompt := from_template "Tell me a joke about {topic}." in
  let chain := chain_invoke prompt llm in
  let* result := chain {[ "topic" := topic ]} in
  let* lresult := alloc (OMessage result) in
  let* llist := alloc (OList [lresult]) in
  alloc (ODict {[ "messages" := llist ]}).

(** Lines 41-47. *)
Definition workflow (llm : AzureChatOpenAI) : StateGraph :=
  add_edge "joke" END
    (set_entry_point "joke"
       (add_node "joke" (joke_node llm) (new_StateGraph State))).

Definition graph (llm : AzureChatOpenAI) (cp : Checkpointer)
  : CompiledStateGraph :=
  compile (workflow llm) (Some cp).

(** Lines 49-56.  The [@profile] decorator only measures the call; the
    keyword defaults are never used by the script. *)
Definition initial_state (topic : string) : dict :=
  {[ "messages" := [HumanMessage topic] ]}.

Definition run_graph (g : CompiledStateGraph) (topic thread_id : string)
  : M unit :=
  let config := thread_id in
  let* result := invoke g (initial_state topic) config in
  let* msgs := getitem result "messages" in
  let* m := list_getitem msgs (-1) in
  let* _ := print (content m) in
  gc_collect.

(** Lines 58-60. *)
Definition main (g : CompiledStateGraph) : M unit :=
  for_each (range 5)
    (fun i => run_graph g ("elephants " +:+ pretty i) ("thread_" +:+ pretty i)).

(** Lines 13-18 and the keyword arguments of lines 21-26: the [.env] file
    is merged into the environment, the four settings are read, and the
    arguments of the constructor are put together.  Nothing here can
    raise, and nothing here looks at the values. *)
Definition llm_arguments : M AzureChatOpenAI :=
  let* _ := load_dotenv in
  let* AZURE_OPENAI_API_KEY := getenv "AZURE_OPENAI_API_KEY" None in
  let* AZURE_OPENAI_ENDPOINT := getenv "AZURE_OPENAI_ENDPOINT" None in
  let* AZURE_OPENAI_API_VERSION :=
    getenv "AZURE_OPENAI_API_VERSION" (Some "2024-12-01-preview") in
  let* AZURE_DEPLOYMENT_NAME :=
    getenv "AZURE_OPENAI_DEPLOYMENT_NAME" (Some "gpt-4o-mini") in
  ret {| azure_endpoint := AZURE_OPENAI_ENDPOINT;
         api_key := AZURE_OPENAI_API_KEY;
         api_version := AZURE_OPENAI_API_VERSION;
         azure_deployment := AZURE_DEPLOYMENT_NAME;
         temperature := 0;
         streaming := false |}.

(** The constructor called at line 20.  The client checks its arguments
    when it is built: it raises without a key, without an API version (an
    empty one counts as none) and without an endpoint, and otherwise
    keeps the arguments it was given.  [ValueError] stands for the error
    of the library. *)
Definition new_AzureChatOpenAI (kwargs : AzureChatOpenAI)
  : M AzureChatOpenAI :=
  match api_key kwargs with
  | None => raise (ValueError "api_key")
  | Some _ =>
      if bool_decide (default "" (api_version kwargs) = "")
      then raise (ValueError "api_version")
      else
        match azure_endpoint kwargs with
        | None => raise (ValueError "azure_endpoint")
        | Some _ => ret kwargs
        end
  end.

(** Lines 13-27: the environment is read and the client is built, or the
    constructor raises. *)
Definition make_llm : M AzureChatOpenAI :=
  let* kwargs := llm_arguments in
  new_AzureChatOpenAI kwargs.

(** The whole script, run as [__main__].  An error of line 20 ends it
    before the saver and the graph exist. *)
Definition script : M unit :=
  let* llm := make_llm in
  let* cp := new_MemorySaver in
  main (graph llm cp).

End Program.

(** ** The world after start-up *)

(** The world once lines 13-18 have run: the entries of the [.env] file
    are merged into the environment, under the variables that are already
    set, and the four reads are in the log. *)
Definition after_startup (w : World) : World :=
  {| environ := environ w ∪ dotenv w;
     dotenv := dotenv w;
     checkpoints := checkpoints w;
     heap := heap w;
     log := log w ++ [EnvRead "AZURE_OPENAI_API_KEY";
                      EnvRead "AZURE_OPENAI_ENDPOINT";
                      EnvRead "AZURE_OPENAI_API_VERSION";
                      EnvRead "AZURE_OPENAI_DEPLOYMENT_NAME"] |}.

(** ** The state a thread is in *)

(** The messages the saver holds for a thread. *)
Definition thread_messages (w : World) (thread_id : string) : list Message :=
  default [] (default ∅ (checkpoints w !! thread_id) !! "messages").

(** The state on which the entry node runs when [input] arrives on a
    thread: the saved channels with the input folded in. *)
Definition entry_state (w : World) (thread_id : string) (input : dict) : dict :=
  apply_writes State (default ∅ (checkpoints w !! thread_id)) input.

(** ** Values and objects *)

(** Computations that leave the world as it is. *)
Definition pure {A} (m : M A) : Prop := forall w, (m w).2 = w.

(** A list object whose elements are message objects holding [msgs]. *)
Definition repr_list (h : gmap loc Obj) (ls : list loc) (msgs : list Message)
  : Prop :=
  Forall2 (fun l m => h !! l = Some (OMessage m)) ls msgs.

(** The dict object at [l] holds, key by key, list objects for the
    message lists of the dict value [st]. *)
Definition repr_state (h : gmap loc Obj) (l : loc) (st : dict) : Prop :=
  exists d,
    h !! l = Some (ODict d) /\
    forall k,
      match d !! k, st !! k with
      | Some ll, Some msgs =>
          exists ls, h !! ll = Some (OList ls) /\ repr_list h ls msgs
      | None, None => True
      | _, _ => False
      end.

(** ** Sample inputs *)

(** A model that answers every request with the text it was sent. *)
Definition echo_model : list Event -> list Message -> Outcome Message :=
  fun _ input => Ok (AIMessage (default "" (content <$> head input))).

(** A model that answers every request, by a function of the request. *)
Definition answering (f : list Message -> Message)
  : list Event -> list Message -> Outcome Message :=
  fun _ input => Ok (f input).

(** A model that is down. *)
Definition failing_model : list Event -> list Message -> Outcome Message :=
  fun _ _ => Raise (RemoteError "connection refused").

Definition sample_llm : AzureChatOpenAI :=
  {| azure_endpoint := Some "https://example.invalid";
     api_key := Some "secret";
     api_version := Some "2024-12-01-preview";
     azure_deployment := Some "gpt-4o-mini";
     temperature := 0;
     streaming := false |}.

Definition sample_world : World :=
  {| environ := ∅; dotenv := ∅; checkpoints := ∅; heap := ∅; log := [] |}.

(** A world in which the key and the endpoint are set, the key in the
    [.env] file; start-up builds [sample_llm] there. *)
Definition configured_world : World :=
  {| environ := {[ "AZURE_OPENAI_ENDPOINT" := "https://example.invalid" ]};
     dotenv := {[ "AZURE_OPENAI_API_KEY" := "secret" ]};
     checkpoints := ∅; heap := ∅; log := [] |}.

Definition sample_messages : list Message :=
  [HumanMessage "cats"; AIMessage "meow"; HumanMessage "dogs"].

(** * Properties *)

Section Properties.

Variable remote : list Event -> list Message -> Outcome Message.

Local Abbreviation request topic :=
  [HumanMessage ("Tell me a joke about " +:+ topic +:+ ".")] (only parsing).

(** ** Subscripting and formatting *)

Lemma list_getitem_last {A} (l : list A) (x : A) :
  last l = Some x -> list_getitem l (-1) = ret x.
Proof.
  intros Hlast. rewrite last_lookup in Hlast.
  assert (Hlen : length l <> 0) by (destruct l; [discriminate | simpl; lia]).
  unfold list_getitem. change (-1 <? 0)%Z with true. cbv iota.
  replace ((0 <=? -1 + Z.of_nat (length l))%Z) with true
    by (symmetry; apply Z.leb_le; lia).
  replace ((-1 + Z.of_nat (length l) <? Z.of_nat (length l))%Z) with true
    by (symmetry; apply Z.ltb_lt; lia).
  replace (Z.to_nat (-1 + Z.of_nat (length l))) with (pred (length l)) by lia.
  cbn [andb]. rewrite Hlast. reflexivity.
Qed.

Lemma last_nonempty {A} (l : list A) : l <> [] -> exists x, last l = Some x.
Proof.
  intros Hne. destruct (last l) as [x|] eqn:E; [eauto|].
  apply last_None in E. contradiction.
Qed.

Lemma format_joke (topic : string) :
  format_pieces (pieces (from_template "Tell me a joke about {topic}."))
                {[ "topic" := topic ]}
  = Ok ("Tell me a joke about " +:+ topic +:+ ".").
Proof.
  change (pieces (from_template "Tell me a joke about {topic}."))
    with [Lit "Tell me a joke about "; Var "topic"; Lit "."].
  cbn [format_pieces]. rewrite lookup_singleton_eq. reflexivity.
Qed.

(** ** The topic *)

Lemma topic_of_last (state : dict) msgs m w :
  state !! "messages" = Some msgs -> last msgs = Some m ->
  topic_of state w = (Ok (content m), w).
Proof.
  intros Hst Hlast. unfold topic_of, bind, getitem. rewrite Hst. cbn [ret].
  destruct msgs as [|m0 msgs]; [discriminate|]. cbn [truthy].
  rewrite (list_getitem_last _ _ Hlast). reflexivity.
Qed.

Lemma topic_of_nil (state : dict) w :
  state !! "messages" = Some [] -> topic_of state w = (Ok "elephants", w).
Proof.
  intros Hst. unfold topic_of, bind, getitem. rewrite Hst. reflexivity.
Qed.

Lemma topic_of_missing (state : dict) w :
  state !! "messages" = None ->
  topic_of state w = (Raise (KeyError "messages"), w).
Proof.
  intros Hst. unfold topic_of, bind, getitem. rewrite Hst. reflexivity.
Qed.

(** Whatever the messages are, line 34 yields a topic when the key is
    there, and leaves the world alone. *)
Lemma topic_of_total (state : dict) msgs w :
  state !! "messages" = Some msgs ->
  exists topic, topic_of state w = (Ok topic, w).
Proof.
  intros Hst. destruct (last msgs) as [m|] eqn:E.
  - exists (content m). eapply topic_of_last; eauto.
  - apply last_None in E. subst msgs. exists "elephants".
    by apply topic_of_nil.
Qed.

Lemma chain_invoke_joke llm topic w :
  chain_invoke remote (from_template "Tell me a joke about {topic}.") llm
               {[ "topic" := topic ]} w
  = (remote (log w) (request topic),
     set_log (log w ++ [LlmCall llm (request topic)]) w).
Proof.
  unfold chain_invoke, bind, prompt_invoke. rewrite format_joke. reflexivity.
Qed.

Lemma joke_node_eq llm (state : dict) topic w :
  topic_of state w = (Ok topic, w) ->
  joke_node remote llm state w
  = (match remote (log w) (request topic) with
     | Ok result => Ok {[ "messages" := [result] ]}
     | Raise e => Raise e
     end,
     set_log (log w ++ [LlmCall llm (request topic)]) w).
Proof.
  intros Htopic. unfold joke_node, bind. rewrite Htopic.
  rewrite chain_invoke_joke. destruct (remote _ _); reflexivity.
Qed.

Lemma joke_node_raise_topic llm (state : dict) e w :
  topic_of state w = (Raise e, w) ->
  joke_node remote llm state w = (Raise e, w).
Proof. intros H. unfold joke_node, bind. rewrite H. reflexivity. Qed.

(** ** The graph of the script *)

Lemma apply_writes_State (state upd : dict) :
  apply_writes State state upd
  = {[ "messages" := default [] (state !! "messages")
                     ++ default [] (upd !! "messages") ]}.
Proof.
  unfold apply_writes, State.
  rewrite <- insert_empty, map_imap_insert, map_imap_empty.
  cbv beta zeta. unfold operator_add.
  destruct (upd !! "messages"); cbn [default]; [|rewrite app_nil_r]; done.
Qed.

Lemma entry_state_eq w tid (input : dict) :
  entry_state w tid input
  = {[ "messages" := thread_messages w tid ++ default [] (input !! "messages") ]}.
Proof. unfold entry_state. by rewrite apply_writes_State. Qed.

Lemma graph_node llm cp :
  nodes (builder (graph remote llm cp)) !! "joke" = Some (joke_node remote llm).
Proof. cbn. apply lookup_insert_eq. Qed.

Lemma graph_edge llm cp :
  edges (builder (graph remote llm cp)) !! "joke" = Some END.
Proof. cbn. apply lookup_insert_eq. Qed.

Lemma invoke_graph llm cp (input : dict) tid w topic :
  (forall w', topic_of (entry_state w tid input) w' = (Ok topic, w')) ->
  invoke (graph remote llm cp) input tid w
  = let st := entry_state w tid input in
    let evs := [GraphInvoke tid; NodeStart "joke" st] in
    match remote (log w ++ evs) (request topic) with
    | Ok r =>
        let final := apply_writes State st {[ "messages" := [r] ]} in
        (Ok final,
         {| environ := environ w; dotenv := dotenv w;
            checkpoints := <[tid := final]> (<[tid := st]> (checkpoints w));
            heap := heap w;
            log := log w ++ evs ++ [LlmCall llm (request topic)] |})
    | Raise e =>
        (Raise e,
         {| environ := environ w; dotenv := dotenv w;
            checkpoints := <[tid := st]> (checkpoints w);
            heap := heap w;
            log := log w ++ evs ++ [LlmCall llm (request topic)] |})
    end.
Proof.
  intros Htopic. destruct cp.
  unfold invoke, bind at 1 2 3.
  unfold emit at 1, get_checkpoint at 1, put_checkpoint at 1.
  change (checkpointer (graph remote llm MemorySaver)) with (Some MemorySaver).
  change (schema (builder (graph remote llm MemorySaver))) with State.
  change (entry_point (builder (graph remote llm MemorySaver))) with (Some "joke").
  cbn [set_log set_checkpoints environ dotenv checkpoints heap log].
  fold (entry_state w tid input).
  change recursion_limit with (S 24). cbn [run_from].
  rewrite graph_node, graph_edge.
  change (schema (builder (graph remote llm MemorySaver))) with State.
  unfold run_node, bind at 1 2 3, emit at 1.
  rewrite (joke_node_eq llm _ topic) by apply Htopic.
  cbn [set_log set_checkpoints environ dotenv checkpoints heap log].
  rewrite <- !app_assoc. cbn [app].
  destruct (remote _ _) as [r|e]; reflexivity.
Qed.

Lemma entry_state_topic w tid topic w' :
  topic_of (entry_state w tid (initial_state topic)) w' = (Ok topic, w').
Proof.
  rewrite entry_state_eq.
  eapply (topic_of_last _ _ (HumanMessage topic)).
  - apply lookup_singleton_eq.
  - unfold initial_state. rewrite lookup_singleton_eq. cbn [default].
    apply last_snoc.
Qed.

(** One call of [run_graph] on the script's graph, in full. *)
Lemma run_graph_eq llm cp topic tid w :
  run_graph (graph remote llm cp) topic tid w
  = let st := entry_state w tid (initial_state topic) in
    let evs := [GraphInvoke tid; NodeStart "joke" st] in
    match remote (log w ++ evs) (request topic) with
    | Ok r =>
        let final := apply_writes State st {[ "messages" := [r] ]} in
        (Ok tt,
         {| environ := environ w; dotenv := dotenv w;
            checkpoints := <[tid := final]> (<[tid := st]> (checkpoints w));
            heap := heap w;
            log := log w ++ evs ++ [LlmCall llm (request topic);
                                    Print (content r); GcCollect] |})
    | Raise e =>
        (Raise e,
         {| environ := environ w; dotenv := dotenv w;
            checkpoints := <[tid := st]> (checkpoints w);
            heap := heap w;
            log := log w ++ evs ++ [LlmCall llm (request topic)] |})
    end.
Proof.
  unfold run_graph, bind at 1.
  rewrite (invoke_graph llm cp _ tid w topic) by (intros; apply entry_state_topic).
  cbv zeta. destruct (remote _ _) as [r|e]; [|reflexivity].
  rewrite apply_writes_State.
  unfold bind, getitem. rewrite !lookup_singleton_eq. cbn [default ret].
  rewrite (list_getitem_last _ r) by apply last_snoc.
  unfold ret, print, gc_collect, emit.
  cbn [set_log set_checkpoints environ dotenv checkpoints heap log].
  rewrite <- !app_assoc. reflexivity.
Qed.

(** ** The node function *)

(** C1: on a state whose messages list is non-empty, line 34 picks the
    content of the last message, and that is the topic in the request
    [joke_node] sends to the model. *)
Theorem joke_node_uses_last_message llm (state : dict) msgs w :
  state !! "messages" = Some msgs -> msgs <> [] ->
  exists m,
    last msgs = Some m /\
    topic_of state w = (Ok (content m), w) /\
    log (joke_node remote llm state w).2
    = log w ++ [LlmCall llm (request (content m))].
Proof.
  intros Hst Hne. destruct (last_nonempty msgs Hne) as [m Hm].
  exists m. split; [done|].
  pose proof (topic_of_last state msgs m w Hst Hm) as Ht.
  split; [done|]. by rewrite (joke_node_eq llm state _ w Ht).
Qed.

(** C2: on a state whose messages list is empty, line 34 falls back to
    the fixed topic "elephants", and the request is about elephants. *)
Theorem joke_node_default_topic llm (state : dict) w :
  state !! "messages" = Some [] ->
  topic_of state w = (Ok "elephants", w) /\
  log (joke_node remote llm state w).2
  = log w ++ [LlmCall llm (request "elephants")].
Proof.
  intros Hst. pose proof (topic_of_nil state w Hst) as Ht.
  split; [done|]. by rewrite (joke_node_eq llm state _ w Ht).
Qed.

Lemma llm_calls_snoc_call l llm input :
  llm_calls (l ++ [LlmCall llm input]) = S (llm_calls l).
Proof.
  unfold llm_calls. rewrite filter_app, length_app.
  rewrite filter_cons_True by reflexivity.
  rewrite filter_nil. cbn [length]. lia.
Qed.

(** C3: for every state that has the [messages] key, [joke_node] picks a
    topic, substitutes it into "Tell me a joke about {topic}.", sends
    that one request to the model and nothing else, and hands back what
    the model answered as the only entry of a dict whose only key is
    [messages]; the world is otherwise untouched. *)
Theorem joke_node_formats_calls_once_and_wraps llm (state : dict) msgs w :
  state !! "messages" = Some msgs ->
  exists topic,
    topic_of state w = (Ok topic, w) /\
    joke_node remote llm state w
    = (match remote (log w) (request topic) with
       | Ok result => Ok {[ "messages" := [result] ]}
       | Raise e => Raise e
       end,
       set_log (log w ++ [LlmCall llm (request topic)]) w) /\
    llm_calls (log (joke_node remote llm state w).2) = S (llm_calls (log w)).
Proof.
  intros Hst. destruct (topic_of_total state msgs w Hst) as [topic Ht].
  exists topic. split; [done|].
  rewrite (joke_node_eq llm state topic w Ht). split; [done|].
  cbn [snd set_log log]. apply llm_calls_snoc_call.
Qed.

(** ** Accumulation of messages *)

(** C4: whenever a node of a graph over [State] runs and returns an
    update, the messages of the resulting state are the prior messages
    followed by the returned ones ([operator.add]); every prior entry
    stays at its index. *)
Theorem messages_append_only name (node : dict -> M dict) (state : dict)
    w upd w' :
  node state (set_log (log w ++ [NodeStart name state]) w) = (Ok upd, w') ->
  let old := default [] (state !! "messages") in
  let new := default [] (upd !! "messages") in
  exists state',
    run_node State name node state w = (Ok state', w') /\
    state' !! "messages" = Some (operator_add old new) /\
    operator_add old new = old ++ new /\
    (forall i m, old !! i = Some m -> (old ++ new) !! i = Some m).
Proof.
  intros Hnode old new.
  exists (apply_writes State state upd). split.
  - unfold run_node, bind, emit. rewrite Hnode. reflexivity.
  - rewrite apply_writes_State, lookup_singleton_eq. split; [done|].
    split; [done|]. intros i m Hi. by apply lookup_app_l_Some.
Qed.

(** The same across a whole invocation of the script's graph: what the
    saver holds for the thread afterwards is what it held before, then
    the input messages, then the model's answer. *)
Lemma invoke_accumulates llm cp (input : dict) tid w topic r :
  (forall w', topic_of (entry_state w tid input) w' = (Ok topic, w')) ->
  remote (log w ++ [GraphInvoke tid; NodeStart "joke" (entry_state w tid input)])
         (request topic) = Ok r ->
  thread_messages (invoke (graph remote llm cp) input tid w).2 tid
  = thread_messages w tid ++ default [] (input !! "messages") ++ [r].
Proof.
  intros Htopic Hr. rewrite (invoke_graph llm cp input tid w topic Htopic).
  cbv zeta. rewrite Hr. unfold thread_messages at 1. cbn [snd checkpoints].
  rewrite lookup_insert_eq. simpl.
  rewrite apply_writes_State, entry_state_eq, !lookup_singleton_eq.
  simpl. by rewrite <- app_assoc.
Qed.

(** ** Start-up *)

Local Abbreviation startup_reads :=
  [EnvRead "AZURE_OPENAI_API_KEY"; EnvRead "AZURE_OPENAI_ENDPOINT";
   EnvRead "AZURE_OPENAI_API_VERSION"; EnvRead "AZURE_OPENAI_DEPLOYMENT_NAME"]
  (only parsing).

Lemma llm_arguments_eq w :
  llm_arguments w
  = let env := environ w ∪ dotenv w in
    (Ok {| azure_endpoint := env !! "AZURE_OPENAI_ENDPOINT";
           api_key := env !! "AZURE_OPENAI_API_KEY";
           api_version :=
             Some (default "2024-12-01-preview"
                           (env !! "AZURE_OPENAI_API_VERSION"));
           azure_deployment :=
             Some (default "gpt-4o-mini"
                           (env !! "AZURE_OPENAI_DEPLOYMENT_NAME"));
           temperature := 0;
           streaming := false |},
     after_startup w).
Proof.
  unfold after_startup, llm_arguments, bind, load_dotenv, getenv, ret.
  cbn [set_log set_environ environ dotenv checkpoints heap log].
  rewrite <- !app_assoc. cbn [app]. cbv zeta.
  destruct ((environ w ∪ dotenv w) !! "AZURE_OPENAI_ENDPOINT"),
           ((environ w ∪ dotenv w) !! "AZURE_OPENAI_API_KEY"),
           ((environ w ∪ dotenv w) !! "AZURE_OPENAI_API_VERSION"),
           ((environ w ∪ dotenv w) !! "AZURE_OPENAI_DEPLOYMENT_NAME");
    reflexivity.
Qed.

(** The constructor changes nothing in the world, and the client it
    builds is made of the arguments it was given. *)
Lemma new_AzureChatOpenAI_world kwargs w : (new_AzureChatOpenAI kwargs w).2 = w.
Proof.
  unfold new_AzureChatOpenAI.
  destruct (api_key kwargs); [|done].
  case_bool_decide; [done|].
  by destruct (azure_endpoint kwargs).
Qed.

Lemma new_AzureChatOpenAI_ok kwargs w llm :
  (new_AzureChatOpenAI kwargs w).1 = Ok llm -> llm = kwargs.
Proof.
  unfold new_AzureChatOpenAI.
  destruct (api_key kwargs); [|done].
  case_bool_decide; [done|].
  destruct (azure_endpoint kwargs); [|done].
  by intros [= ->].
Qed.

(** It raises exactly when the key or the endpoint is missing or the API
    version is missing or empty. *)
Lemma new_AzureChatOpenAI_raises kwargs w :
  (exists e, (new_AzureChatOpenAI kwargs w).1 = Raise e) <->
  api_key kwargs = None \/ azure_endpoint kwargs = None \/
  api_version kwargs = None \/ api_version kwargs = Some "".
Proof.
  unfold new_AzureChatOpenAI.
  destruct (api_key kwargs) as [k|], (azure_endpoint kwargs) as [ep|],
           (api_version kwargs) as [v|]; simpl;
    try case_bool_decide; simplify_eq/=; unfold raise, ret; cbn [fst];
    split; intros Hyp; eauto 6;
    try (by destruct Hyp as [e [=]]);
    destruct Hyp as [[=]|[[=]|[[=]|[=]]]]; simplify_eq.
Qed.

Lemma make_llm_eq w :
  make_llm w = new_AzureChatOpenAI (match (llm_arguments w).1 with
                                    | Ok kwargs => kwargs
                                    | Raise _ => mkLlm None None None None 0 false
                                    end) (after_startup w).
Proof. unfold make_llm, bind. rewrite llm_arguments_eq. reflexivity. Qed.

Lemma make_llm_world w : (make_llm w).2 = after_startup w.
Proof. rewrite make_llm_eq. apply new_AzureChatOpenAI_world. Qed.

(** The script is start-up followed, when the client is built, by the
    loop on a fresh saver; an error of start-up ends it at once. *)
Lemma script_eq w :
  script remote w
  = match make_llm w with
    | (Ok llm, w0) => main (graph remote llm MemorySaver) (set_checkpoints ∅ w0)
    | (Raise e, w0) => (Raise e, w0)
    end.
Proof. unfold script, bind at 1 2. by destruct (make_llm w) as [[llm|e] w0]. Qed.

Lemma script_started w llm :
  (make_llm w).1 = Ok llm ->
  script remote w
  = main (graph remote llm MemorySaver) (set_checkpoints ∅ (after_startup w)).
Proof.
  intros Hstart. rewrite script_eq. pose proof (make_llm_world w) as Hw.
  destruct (make_llm w) as [[llm'|e] w0]; simplify_eq/=. done.
Qed.

Lemma script_not_started w e :
  (make_llm w).1 = Raise e -> script remote w = (Raise e, after_startup w).
Proof.
  intros Hstart. rewrite script_eq. pose proof (make_llm_world w) as Hw.
  destruct (make_llm w) as [[llm'|e'] w0]; simplify_eq/=. done.
Qed.

(** ** The loop *)

Lemma for_each_log {A} (P : Event -> Prop) (xs : list A) (body : A -> M unit) :
  (forall x w, exists evs, log (body x w).2 = log w ++ evs /\ Forall P evs) ->
  forall w, exists evs,
    log (for_each xs body w).2 = log w ++ evs /\ Forall P evs.
Proof.
  intros Hbody. induction xs as [|x xs IH]; intros w.
  - exists []. cbn. by rewrite app_nil_r.
  - cbn [for_each]. unfold bind.
    destruct (Hbody x w) as (evs1 & L1 & F1).
    destruct (body x w) as [[[]|e] w1] eqn:E; cbn [snd] in L1.
    + destruct (IH w1) as (evs2 & L2 & F2).
      exists (evs1 ++ evs2). rewrite L2, L1, <- app_assoc.
      split; [done|]. by apply Forall_app.
    + exists evs1. by split.
Qed.

(** The loop raises exactly the error of the first iteration that raises. *)
Lemma for_each_raise {A} (xs : list A) (body : A -> M unit) w e :
  (for_each xs body w).1 = Raise e <->
  exists xs1 x xs2 w1,
    xs = xs1 ++ x :: xs2 /\
    for_each xs1 body w = (Ok tt, w1) /\
    (body x w1).1 = Raise e.
Proof.
  revert w. induction xs as [|x xs IH]; intros w.
  - split; [discriminate|].
    intros (xs1 & y & xs2 & w1 & Hxs & _). by destruct xs1.
  - cbn [for_each]. unfold bind. split.
    + destruct (body x w) as [[[]|e'] w1] eqn:E; cbn [fst].
      * intros H. apply IH in H as (xs1 & y & xs2 & w2 & -> & Hok & Hy).
        exists (x :: xs1), y, xs2, w2. split; [done|]. split; [|done].
        cbn [for_each]. unfold bind. by rewrite E.
      * intros [= ->]. exists [], x, xs, w. split; [done|].
        split; [done|]. by rewrite E.
    + intros (xs1 & y & xs2 & w1 & Hxs & Hok & Hy).
      destruct xs1 as [|x1 xs1]; simplify_eq/=.
      * unfold ret in Hok. simplify_eq.
        destruct (body y w1) as [[[]|e'] w2]; simplify_eq/=; done.
      * unfold bind in Hok.
        destruct (body x1 w) as [[[]|e'] w2]; [|done].
        apply IH. by exists xs1, y, xs2, w1.
Qed.

Lemma run_graph_ok llm cp topic tid w :
  (forall l input, exists r, remote l input = Ok r) ->
  exists st r w',
    run_graph (graph remote llm cp) topic tid w = (Ok tt, w') /\
    log w' = log w ++ [GraphInvoke tid; NodeStart "joke" st;
                       LlmCall llm (request topic);
                       Print (content r); GcCollect].
Proof.
  intros Hanswer. rewrite run_graph_eq. cbv zeta.
  destruct (Hanswer
              (log w ++ [GraphInvoke tid;
                         NodeStart "joke"
                           (entry_state w tid (initial_state topic))])
              (request topic)) as [r Hr].
  rewrite Hr. eexists _, r, _. split; reflexivity.
Qed.

Lemma run_graph_log llm cp topic tid w :
  exists evs,
    log (run_graph (graph remote llm cp) topic tid w).2 = log w ++ evs /\
    Forall (fun e => any_env_read e = false) evs.
Proof.
  rewrite run_graph_eq. cbv zeta.
  destruct (remote _ _) as [r|e]; eexists; (split; [reflexivity|]);
    repeat constructor.
Qed.

Lemma env_reads_app name l1 l2 :
  env_reads name (l1 ++ l2) = env_reads name l1 + env_reads name l2.
Proof. unfold env_reads. by rewrite filter_app, length_app. Qed.

Lemma env_reads_none name l :
  Forall (fun e => any_env_read e = false) l -> env_reads name l = 0.
Proof.
  unfold env_reads. induction 1 as [|e l He _ IH]; [done|].
  rewrite filter_cons_False; [done|].
  destruct e; cbn in *; congruence.
Qed.

Ltac step_run_graph H :=
  match goal with
  | |- context [run_graph (graph _ ?llm ?cp) ?t ?i ?w] =>
      let E := fresh "E" in
      destruct (run_graph_ok llm cp t i w H) as (? & ? & ? & E & ?);
      rewrite E; clear E
  end.

Lemma main_ok llm w :
  (forall l input, exists r, remote l input = Ok r) ->
  exists w' evs,
    main (graph remote llm MemorySaver) w = (Ok tt, w') /\
    log w' = log w ++ evs /\
    invocations evs
    = ["thread_0"; "thread_1"; "thread_2"; "thread_3"; "thread_4"] /\
    gc_after_each false evs = true.
Proof.
  intros Hanswer. unfold main, range. cbn [seq for_each]. unfold bind.
  do 5 step_run_graph Hanswer.
  eexists _, _. split; [reflexivity|]. split.
  - repeat match goal with H : log _ = _ |- _ => rewrite H; clear H end.
    rewrite <- !app_assoc. reflexivity.
  - split; reflexivity.
Qed.

(** C5, amended: when line 20 builds the client and the model answers
    every request, the script runs to its end, invokes the graph exactly
    five times, on the threads [thread_0] to [thread_4], which are
    pairwise distinct, and every invocation is followed by a forced
    collection before the next one starts. *)
Theorem script_invokes_five_times w llm :
  (make_llm w).1 = Ok llm ->
  (forall l input, exists r, remote l input = Ok r) ->
  exists w' evs,
    script remote w = (Ok tt, w') /\
    log w' = log w ++ evs /\
    invocations evs
    = ["thread_0"; "thread_1"; "thread_2"; "thread_3"; "thread_4"] /\
    length (invocations evs) = 5 /\
    NoDup (invocations evs) /\
    gc_after_each false evs = true.
Proof.
  intros Hstart Hanswer. rewrite (script_started w llm Hstart).
  destruct (main_ok llm (set_checkpoints ∅ (after_startup w)) Hanswer)
    as (w' & evs & Hmain & Hlog & Hinv & Hgc).
  exists w'. eexists. split; [exact Hmain|].
  split.
  - rewrite Hlog. cbn [set_checkpoints after_startup log].
    rewrite <- app_assoc. reflexivity.
  - cbn [app invocations gc_after_each negb andb]. rewrite Hinv.
    split; [done|]. split; [done|]. split; [|done].
    apply NoDup_ListNoDup. repeat constructor; cbn; intuition discriminate.
Qed.

Lemma main_log llm cp w :
  exists evs,
    log (main (graph remote llm cp) w).2 = log w ++ evs /\
    Forall (fun e => any_env_read e = false) evs.
Proof.
  unfold main. apply for_each_log. intros i w1. apply run_graph_log.
Qed.

(** ** The environment *)

(** C6: the log of the script starts with one read of each of the four
    variables, made by the start-up code of lines 15-18; the events of
    the loop that follows contain no read of the environment at all, so
    over the whole run each variable is read exactly once. *)
Theorem env_read_once_at_startup w :
  exists loop,
    log (make_llm w).2 = log w ++ startup_reads /\
    log (script remote w).2 = log w ++ startup_reads ++ loop /\
    (forall name, env_reads name loop = 0) /\
    env_reads "AZURE_OPENAI_API_KEY" (startup_reads ++ loop) = 1 /\
    env_reads "AZURE_OPENAI_ENDPOINT" (startup_reads ++ loop) = 1 /\
    env_reads "AZURE_OPENAI_API_VERSION" (startup_reads ++ loop) = 1 /\
    env_reads "AZURE_OPENAI_DEPLOYMENT_NAME" (startup_reads ++ loop) = 1.
Proof.
  rewrite make_llm_world.
  destruct (make_llm w).1 as [llm|e] eqn:Hstart.
  - rewrite (script_started w llm Hstart).
    destruct (main_log llm MemorySaver (set_checkpoints ∅ (after_startup w)))
      as (loop & Hlog & Hno).
    exists loop. split; [done|]. split.
    + rewrite Hlog. cbn [set_checkpoints after_startup log].
      by rewrite <- app_assoc.
    + assert (Hzero : forall name, env_reads name loop = 0)
        by (intros name; by apply env_reads_none).
      split; [done|].
      repeat split; rewrite env_reads_app, Hzero; reflexivity.
  - rewrite (script_not_started w e Hstart).
    exists []. split; [done|]. split; [done|]. split; [done|].
    repeat split.
Qed.

(** C8: lines 13-18 never raise, and the arguments they hand to the
    constructor of line 20 are these: after [load_dotenv], a missing API
    version has become "2024-12-01-preview" and a missing deployment
    name "gpt-4o-mini", while a missing key or endpoint is handed over as
    [None], the script checking neither.  Start-up is the constructor
    applied to exactly these arguments. *)
Theorem env_defaults w :
  exists kwargs w',
    llm_arguments w = (Ok kwargs, w') /\
    make_llm w = new_AzureChatOpenAI kwargs w' /\
    environ w' = environ w ∪ dotenv w /\
    (environ w' !! "AZURE_OPENAI_API_VERSION" = None ->
     api_version kwargs = Some "2024-12-01-preview") /\
    (environ w' !! "AZURE_OPENAI_DEPLOYMENT_NAME" = None ->
     azure_deployment kwargs = Some "gpt-4o-mini") /\
    (environ w' !! "AZURE_OPENAI_API_KEY" = None -> api_key kwargs = None) /\
    (environ w' !! "AZURE_OPENAI_ENDPOINT" = None ->
     azure_endpoint kwargs = None).
Proof.
  rewrite make_llm_eq, llm_arguments_eq. cbv zeta. cbn [fst].
  eexists _, _. split; [reflexivity|]. split; [reflexivity|].
  cbn [after_startup environ api_version azure_deployment api_key
       azure_endpoint].
  split; [done|].
  repeat split; intros ->; reflexivity.
Qed.

(** ** Errors *)

Lemma topic_of_some (state : dict) msgs w :
  state !! "messages" = Some msgs ->
  topic_of state w
  = (Ok (default "elephants" (content <$> last msgs)), w).
Proof.
  intros Hst. destruct (last msgs) as [m|] eqn:E.
  - by apply (topic_of_last state msgs m).
  - apply last_None in E. subst msgs. by apply topic_of_nil.
Qed.

(** C7: an error leaves [joke_node] exactly when one of its steps raises
    it (the lookup of [messages], or the request to the model), and it
    leaves [run_graph] exactly when the model raises it; the loop stops
    at the first call of [run_graph] that raises and raises the same
    error; the script ends with the error of line 20 when the
    constructor raises, and otherwise with whatever the loop ends with.
    Nothing is caught anywhere. *)
Theorem errors_propagate llm cp :
  (forall (state : dict) w e,
     (joke_node remote llm state w).1 = Raise e <->
     (state !! "messages" = None /\ e = KeyError "messages") \/
     (exists msgs,
        state !! "messages" = Some msgs /\
        remote (log w)
               (request (default "elephants" (content <$> last msgs)))
        = Raise e)) /\
  (forall topic tid w e,
     (run_graph (graph remote llm cp) topic tid w).1 = Raise e <->
     remote (log w ++ [GraphInvoke tid;
                       NodeStart "joke"
                         (entry_state w tid (initial_state topic))])
            (request topic)
     = Raise e) /\
  (forall g w e,
     (main g w).1 = Raise e <->
     exists before i after w1,
       range 5 = before ++ i :: after /\
       for_each before
         (fun i => run_graph g ("elephants " +:+ pretty i)
                             ("thread_" +:+ pretty i)) w
       = (Ok tt, w1) /\
       (run_graph g ("elephants " +:+ pretty i) ("thread_" +:+ pretty i) w1).1
       = Raise e) /\
  (forall w,
     script remote w
     = match make_llm w with
       | (Ok llm0, w0) =>
           main (graph remote llm0 MemorySaver) (set_checkpoints ∅ w0)
       | (Raise e, w0) => (Raise e, w0)
       end).
Proof.
  split; [|split; [|split]].
  - intros state w e. destruct (state !! "messages") as [msgs|] eqn:Hst.
    + rewrite (joke_node_eq llm state _ w (topic_of_some state msgs w Hst)).
      cbn [fst]. split.
      * destruct (remote _ _) as [r|e'] eqn:Hr; intros H; [discriminate|].
        right. exists msgs. split; [done|]. congruence.
      * intros [[? _]|(msgs' & [= <-] & Hr)]; [discriminate|].
        by rewrite Hr.
    + rewrite (joke_node_raise_topic llm state _ w (topic_of_missing state w Hst)).
      cbn [fst]. split.
      * intros [= <-]. by left.
      * intros [[_ ->]|(msgs & ? & _)]; [done|discriminate].
  - intros topic tid w e. rewrite run_graph_eq. cbv zeta.
    destruct (remote _ _) as [r|e']; cbn [fst]; split; congruence.
  - intros g w e. unfold main. apply for_each_raise.
  - intros w. apply script_eq.
Qed.

(** ** What the node sees *)

(** C9: every call of [run_graph] hands the graph an initial state with
    exactly one human message carrying the topic.  The node then starts
    once, on a state whose messages list is non-empty and ends with that
    message: the condition of line 34 is true, the access to the last
    element succeeds, and the topic is the argument of [run_graph]. *)
Theorem run_graph_state_nonempty llm cp topic tid w :
  initial_state topic !! "messages" = Some [HumanMessage topic] /\
  size (initial_state topic) = 1 /\
  exists st msgs evs,
    log (run_graph (graph remote llm cp) topic tid w).2 = log w ++ evs /\
    node_starts evs = [("joke", st)] /\
    st !! "messages" = Some msgs /\
    msgs <> [] /\
    truthy msgs = true /\
    last msgs = Some (HumanMessage topic) /\
    (forall w', list_getitem msgs (-1) w' = (Ok (HumanMessage topic), w')) /\
    (forall w', topic_of st w' = (Ok topic, w')).
Proof.
  split; [apply lookup_singleton_eq|]. split; [apply map_size_singleton|].
  exists (entry_state w tid (initial_state topic)),
         (thread_messages w tid ++ [HumanMessage topic]).
  assert (Hlast : last (thread_messages w tid ++ [HumanMessage topic])
                  = Some (HumanMessage topic)) by apply last_snoc.
  assert (Hevs : exists evs,
             log (run_graph (graph remote llm cp) topic tid w).2 = log w ++ evs /\
             node_starts evs
             = [("joke", entry_state w tid (initial_state topic))]).
  { rewrite run_graph_eq. cbv zeta.
    destruct (remote _ _); eexists; split; reflexivity. }
  destruct Hevs as (evs & Hlog & Hstarts). exists evs.
  split; [done|]. split; [done|]. split.
  { rewrite entry_state_eq. unfold initial_state.
    by rewrite !lookup_singleton_eq. }
  split; [by destruct (thread_messages w tid)|].
  split; [by destruct (thread_messages w tid)|].
  split; [done|]. split.
  - intros w'. by rewrite (list_getitem_last _ _ Hlast).
  - intros w'. apply entry_state_topic.
Qed.

(** ** The object store *)

Lemma pure_ret {A} (a : A) : pure (ret a).
Proof. by intros w. Qed.

Lemma pure_raise {A} e : pure (@raise A e).
Proof. by intros w. Qed.

Lemma pure_bind {A B} (m : M A) (k : A -> M B) :
  pure m -> (forall a, pure (k a)) -> pure (bind m k).
Proof.
  intros Hm Hk w. unfold bind. specialize (Hm w).
  destruct (m w) as [[a|e] w1]; cbn in Hm; subst w1; [apply Hk|done].
Qed.

Lemma pure_getitem {V} (d : gmap string V) k : pure (getitem d k).
Proof. unfold getitem. destruct (d !! k); [apply pure_ret|apply pure_raise]. Qed.

Lemma pure_list_getitem {A} (l : list A) i : pure (list_getitem l i).
Proof.
  unfold list_getitem. cbv zeta.
  destruct (_ && _); [|apply pure_raise].
  destruct (l !! _); [apply pure_ret|apply pure_raise].
Qed.

Lemma pure_read_dict l : pure (read_dict l).
Proof. intros w. unfold read_dict. by destruct (heap w !! l) as [[]|]. Qed.

Lemma pure_read_list l : pure (read_list l).
Proof. intros w. unfold read_list. by destruct (heap w !! l) as [[]|]. Qed.

Lemma pure_read_message l : pure (read_message l).
Proof. intros w. unfold read_message. by destruct (heap w !! l) as [[]|]. Qed.

Lemma topic_of_ref_world state w : (topic_of_ref state w).2 = w.
Proof.
  revert w. change (pure (topic_of_ref state)). unfold topic_of_ref.
  apply pure_bind; [apply pure_read_dict|intros d].
  apply pure_bind; [apply pure_getitem|intros lcond].
  apply pure_bind; [apply pure_read_list|intros cond].
  destruct (truthy cond); [|apply pure_ret].
  apply pure_bind; [apply pure_read_dict|intros d'].
  apply pure_bind; [apply pure_getitem|intros lmsgs].
  apply pure_bind; [apply pure_read_list|intros msgs].
  apply pure_bind; [apply pure_list_getitem|intros lm].
  apply pure_bind; [apply pure_read_message|intros m].
  apply pure_ret.
Qed.

Lemma joke_node_ref_eq llm state w topic :
  topic_of_ref state w = (Ok topic, w) ->
  joke_node_ref remote llm state w
  = match remote (log w) (request topic) with
    | Ok result =>
        let lresult := fresh (dom (heap w)) in
        let h1 := <[lresult := OMessage result]> (heap w) in
        let llist := fresh (dom h1) in
        let h2 := <[llist := OList [lresult]]> h1 in
        let lret := fresh (dom h2) in
        (Ok lret,
         {| environ := environ w; dotenv := dotenv w;
            checkpoints := checkpoints w;
            heap := <[lret := ODict {[ "messages" := llist ]}]> h2;
            log := log w ++ [LlmCall llm (request topic)] |})
    | Raise e => (Raise e, set_log (log w ++ [LlmCall llm (request topic)]) w)
    end.
Proof.
  intros Htopic. unfold joke_node_ref, bind at 1. rewrite Htopic.
  unfold bind at 1. rewrite chain_invoke_joke.
  destruct (remote _ _) as [result|e]; reflexivity.
Qed.

Lemma insert_fresh_lookup (h : gmap loc Obj) o l x :
  h !! l = Some x -> <[fresh (dom h) := o]> h !! l = Some x.
Proof.
  intros Hl. rewrite lookup_insert_ne; [done|].
  intros <-. apply (is_fresh (dom h)). apply elem_of_dom. eauto.
Qed.

Lemma fresh_lookup_None (h : gmap loc Obj) : h !! fresh (dom h) = None.
Proof. apply not_elem_of_dom, is_fresh. Qed.

Lemma insert_lookup_None_inv (h : gmap loc Obj) l l' o :
  <[l := o]> h !! l' = None -> h !! l' = None.
Proof. rewrite lookup_insert_None. tauto. Qed.

(** C10: [joke_node], read over the object store, changes no object that
    existed before the call (so the input dict, its messages list and the
    messages in it are as they were), and what it returns is a reference
    to a dict that did not exist before, with the single key [messages]
    bound to a new one-element list holding the model's answer.  When it
    raises, the store is exactly as before. *)
Theorem joke_node_ref_does_not_mutate llm state w :
  (forall l o, heap w !! l = Some o ->
               heap (joke_node_ref remote llm state w).2 !! l = Some o) /\
  match (joke_node_ref remote llm state w).1 with
  | Ok lret =>
      exists llist lresult result,
        heap w !! lret = None /\
        heap w !! llist = None /\
        heap w !! lresult = None /\
        heap (joke_node_ref remote llm state w).2 !! lret
        = Some (ODict {[ "messages" := llist ]}) /\
        heap (joke_node_ref remote llm state w).2 !! llist
        = Some (OList [lresult]) /\
        heap (joke_node_ref remote llm state w).2 !! lresult
        = Some (OMessage result)
  | Raise _ => heap (joke_node_ref remote llm state w).2 = heap w
  end.
Proof.
  pose proof (topic_of_ref_world state w) as Hw.
  destruct (topic_of_ref state w) as [[topic|e] w0] eqn:Htopic;
    cbn [snd] in Hw; subst w0.
  - rewrite (joke_node_ref_eq llm state w topic Htopic).
    destruct (remote _ _) as [result|e]; [|by split].
    cbv zeta. cbn [fst snd heap].
    set (l1 := fresh (dom (heap w))).
    set (h1 := <[l1 := OMessage result]> (heap w)).
    set (l2 := fresh (dom h1)).
    set (h2 := <[l2 := OList [l1]]> h1).
    set (l3 := fresh (dom h2)).
    assert (H1 : heap w !! l1 = None) by apply fresh_lookup_None.
    assert (H2 : h1 !! l2 = None) by apply fresh_lookup_None.
    assert (H3 : h2 !! l3 = None) by apply fresh_lookup_None.
    split.
    + intros l o Hl. do 3 apply insert_fresh_lookup. exact Hl.
    + exists l2, l1, result.
      split; [by do 2 eapply insert_lookup_None_inv|].
      split; [by eapply insert_lookup_None_inv|].
      split; [done|].
      split; [apply lookup_insert_eq|].
      split.
      * apply insert_fresh_lookup. apply lookup_insert_eq.
      * do 2 apply insert_fresh_lookup. apply lookup_insert_eq.
  - unfold joke_node_ref, bind. rewrite Htopic. cbn [fst snd]. by split.
Qed.

(** *** The two readings agree *)

Lemma repr_list_last h ls msgs lm :
  repr_list h ls msgs -> last ls = Some lm ->
  exists m, last msgs = Some m /\ h !! lm = Some (OMessage m).
Proof.
  intros Hrep Hlast. rewrite last_lookup in Hlast.
  destruct (Forall2_lookup_l _ _ _ _ _ Hrep Hlast) as (m & Hm & Hlm).
  exists m. split; [|done].
  rewrite last_lookup, <- (Forall2_length _ _ _ Hrep). done.
Qed.

Lemma repr_list_truthy h ls msgs :
  repr_list h ls msgs -> truthy ls = truthy msgs.
Proof. by destruct 1. Qed.

Lemma topic_of_ref_some l d ll ls w :
  heap w !! l = Some (ODict d) -> d !! "messages" = Some ll ->
  heap w !! ll = Some (OList ls) ->
  topic_of_ref l w
  = match last ls with
    | None => (Ok "elephants", w)
    | Some lm =>
        match heap w !! lm with
        | Some (OMessage m) => (Ok (content m), w)
        | _ => (Raise TypeError, w)
        end
    end.
Proof.
  intros Hl Hll Hls.
  unfold topic_of_ref, bind, read_dict, getitem, read_list.
  rewrite Hl, Hll. cbn [ret]. rewrite Hls.
  destruct (last ls) as [lm|] eqn:Hlast.
  - destruct ls as [|l0 ls]; [discriminate|]. cbn [truthy].
    rewrite Hl, Hll. cbn [ret]. rewrite Hls.
    rewrite (list_getitem_last _ _ Hlast). cbn [ret].
    unfold read_message. by destruct (heap w !! lm) as [[]|].
  - apply last_None in Hlast. by subst ls.
Qed.

Lemma topic_of_ref_refines l (st : dict) w :
  repr_state (heap w) l st -> topic_of_ref l w = topic_of st w.
Proof.
  intros (d & Hd & Hkeys). specialize (Hkeys "messages").
  destruct (d !! "messages") as [ll|] eqn:Hll,
           (st !! "messages") as [msgs|] eqn:Hst; try done.
  - destruct Hkeys as (ls & Hls & Hrep).
    rewrite (topic_of_ref_some l d ll ls w Hd Hll Hls).
    rewrite (topic_of_some st msgs w Hst).
    destruct (last ls) as [lm|] eqn:Hlast.
    + destruct (repr_list_last _ _ _ _ Hrep Hlast) as (m & -> & ->). done.
    + apply last_None in Hlast. subst ls. by inversion Hrep.
  - rewrite (topic_of_missing st w Hst).
    unfold topic_of_ref, bind, read_dict, getitem. by rewrite Hd, Hll.
Qed.

Lemma repr_state_mono h h' l st :
  (forall l o, h !! l = Some o -> h' !! l = Some o) ->
  repr_state h l st -> repr_state h' l st.
Proof.
  intros Hsub (d & Hd & Hkeys). exists d. split; [by apply Hsub|].
  intros k. specialize (Hkeys k).
  destruct (d !! k), (st !! k); try done.
  destruct Hkeys as (ls & Hls & Hrep). exists ls. split; [by apply Hsub|].
  eapply Forall2_impl; [exact Hrep|]. intros ? ? ?. by apply Hsub.
Qed.

(** [joke_node_ref] on a reference to an object that holds the state
    does what [joke_node] does on the state itself: the same request,
    the same error if any, and a result object that holds the result. *)
Lemma joke_node_ref_refines llm l (st : dict) w :
  repr_state (heap w) l st ->
  match joke_node remote llm st w, joke_node_ref remote llm l w with
  | (Ok d, w1), (Ok l', w2) => repr_state (heap w2) l' d /\ log w1 = log w2
  | (Raise e1, w1), (Raise e2, w2) => e1 = e2 /\ log w1 = log w2
  | _, _ => False
  end.
Proof.
  intros Hrep. pose proof (topic_of_ref_refines l st w Hrep) as Href.
  pose proof (topic_of_ref_world l w) as Hw.
  destruct (topic_of_ref l w) as [[topic|e] w0] eqn:Htopic;
    cbn [snd] in Hw; subst w0.
  - rewrite (joke_node_eq llm st topic w) by done.
    rewrite (joke_node_ref_eq llm l w topic Htopic).
    destruct (remote _ _) as [result|e]; [|done].
    cbv zeta. split; [|done]. cbn [heap].
    eexists. split; [apply lookup_insert_eq|]. intros k.
    destruct (decide (k = "messages")) as [->|Hk].
    + rewrite !lookup_singleton_eq. eexists. split.
      * apply insert_fresh_lookup, lookup_insert_eq.
      * constructor; [|constructor].
        do 2 apply insert_fresh_lookup. apply lookup_insert_eq.
    + by rewrite !lookup_singleton_ne.
  - rewrite (joke_node_raise_topic llm st e w) by done.
    unfold joke_node_ref, bind. by rewrite Htopic.
Qed.

End Properties.

(** * Instances on the sample inputs *)

Lemma joke_node_uses_last_message_witness :
  exists m,
    last sample_messages = Some m /\
    topic_of {[ "messages" := sample_messages ]} sample_world
    = (Ok (content m), sample_world) /\
    log (joke_node echo_model sample_llm
           {[ "messages" := sample_messages ]} sample_world).2
    = log sample_world
      ++ [LlmCall sample_llm
            [HumanMessage ("Tell me a joke about " +:+ content m +:+ ".")]].
Proof.
  apply (joke_node_uses_last_message echo_model sample_llm
           {[ "messages" := sample_messages ]} sample_messages sample_world).
  - apply lookup_singleton_eq.
  - discriminate.
Defined.

Lemma joke_node_default_topic_witness :
  topic_of {[ "messages" := [] ]} sample_world = (Ok "elephants", sample_world) /\
  log (joke_node echo_model sample_llm {[ "messages" := [] ]} sample_world).2
  = log sample_world
    ++ [LlmCall sample_llm [HumanMessage "Tell me a joke about elephants."]].
Proof.
  apply (joke_node_default_topic echo_model sample_llm
           {[ "messages" := [] ]} sample_world).
  apply lookup_singleton_eq.
Defined.

Lemma joke_node_formats_calls_once_and_wraps_witness :
  exists topic,
    topic_of {[ "messages" := sample_messages ]} sample_world
    = (Ok topic, sample_world) /\
    joke_node echo_model sample_llm
      {[ "messages" := sample_messages ]} sample_world
    = (match echo_model (log sample_world)
               [HumanMessage ("Tell me a joke about " +:+ topic +:+ ".")] with
       | Ok result => Ok {[ "messages" := [result] ]}
       | Raise e => Raise e
       end,
       set_log
         (log sample_world
          ++ [LlmCall sample_llm
                [HumanMessage ("Tell me a joke about " +:+ topic +:+ ".")]])
         sample_world) /\
    llm_calls (log (joke_node echo_model sample_llm
                      {[ "messages" := sample_messages ]} sample_world).2)
    = S (llm_calls (log sample_world)).
Proof.
  apply (joke_node_formats_calls_once_and_wraps echo_model sample_llm
           {[ "messages" := sample_messages ]} sample_messages sample_world).
  apply lookup_singleton_eq.
Defined.

Lemma messages_append_only_witness :
  exists state',
    run_node State "joke" (joke_node echo_model sample_llm)
      {[ "messages" := sample_messages ]} sample_world
    = (Ok state',
       (joke_node echo_model sample_llm {[ "messages" := sample_messages ]}
          (set_log [NodeStart "joke" {[ "messages" := sample_messages ]}]
                   sample_world)).2) /\
    state' !! "messages"
    = Some (operator_add sample_messages
              [AIMessage "Tell me a joke about dogs."]) /\
    operator_add sample_messages [AIMessage "Tell me a joke about dogs."]
    = sample_messages ++ [AIMessage "Tell me a joke about dogs."] /\
    (forall i m, sample_messages !! i = Some m ->
       (sample_messages ++ [AIMessage "Tell me a joke about dogs."]) !! i
       = Some m).
Proof.
  pose proof (messages_append_only "joke" (joke_node echo_model sample_llm)
                {[ "messages" := sample_messages ]} sample_world
                {[ "messages" := [AIMessage "Tell me a joke about dogs."] ]}
                (joke_node echo_model sample_llm
                   {[ "messages" := sample_messages ]}
                   (set_log
                      [NodeStart "joke" {[ "messages" := sample_messages ]}]
                      sample_world)).2) as H.
  rewrite !lookup_singleton_eq in H. apply H. reflexivity.
Defined.

Lemma script_invokes_five_times_witness :
  exists w' evs,
    script echo_model configured_world = (Ok tt, w') /\
    log w' = log configured_world ++ evs /\
    invocations evs
    = ["thread_0"; "thread_1"; "thread_2"; "thread_3"; "thread_4"] /\
    length (invocations evs) = 5 /\
    NoDup (invocations evs) /\
    gc_after_each false evs = true.
Proof.
  apply (script_invokes_five_times echo_model configured_world sample_llm).
  - reflexivity.
  - intros l input. eexists. reflexivity.
Defined.

(** C5 as it is stated does not hold of every run.  With the client
    built and a model that is down, the first call of [run_graph] raises:
    the script ends with that error after one invocation, and the
    collection that would follow it is never reached.  Without a key and
    an endpoint the constructor of line 20 raises, and the graph is not
    invoked at all. *)
Lemma script_invokes_five_times_counterexample :
  (script failing_model configured_world).1
  = Raise (RemoteError "connection refused") /\
  invocations (log (script failing_model configured_world).2) = ["thread_0"] /\
  length (invocations (log (script failing_model configured_world).2)) <> 5 /\
  gc_after_each false (log (script failing_model configured_world).2) = false /\
  (exists e, (script echo_model sample_world).1 = Raise e) /\
  invocations (log (script echo_model sample_world).2) = [] /\
  length (invocations (log (script echo_model sample_world).2)) <> 5.
Proof.
  vm_compute.
  split; [reflexivity|]. split; [reflexivity|]. split; [discriminate|].
  split; [reflexivity|]. split; [eexists; reflexivity|].
  split; [reflexivity|discriminate].
Qed.

(** * The model at work *)

(** With a model that is down, the log of the script is start-up and
    one round cut short after the request. *)
Example script_stops_at_first_error :
  log (script failing_model configured_world).2
  = [EnvRead "AZURE_OPENAI_API_KEY"; EnvRead "AZURE_OPENAI_ENDPOINT";
     EnvRead "AZURE_OPENAI_API_VERSION"; EnvRead "AZURE_OPENAI_DEPLOYMENT_NAME";
     GraphInvoke "thread_0";
     NodeStart "joke" (initial_state "elephants 0");
     LlmCall sample_llm [HumanMessage "Tell me a joke about elephants 0."]].
Proof. vm_compute. reflexivity. Qed.

(** Without a key the script ends at line 20: the four settings have
    been read, and nothing else has happened. *)
Example script_without_key :
  (exists e, (script echo_model sample_world).1 = Raise e) /\
  log (script echo_model sample_world).2
  = [EnvRead "AZURE_OPENAI_API_KEY"; EnvRead "AZURE_OPENAI_ENDPOINT";
     EnvRead "AZURE_OPENAI_API_VERSION"; EnvRead "AZURE_OPENAI_DEPLOYMENT_NAME"].
Proof. vm_compute. split; [eexists|]; reflexivity. Qed.

(** With a model that answers, the log of the script is start-up followed
    by five rounds of invoke, node, request, print and collect. *)
Example script_log_shape :
  map (fun e => match e with
                | EnvRead _ => "env"
                | GraphInvoke t => t
                | NodeStart n _ => n
                | LlmCall _ _ => "llm"
                | Print _ => "print"
                | GcCollect => "gc"
                end) (log (script echo_model configured_world).2)
  = ["env"; "env"; "env"; "env";
     "thread_0"; "joke"; "llm"; "print"; "gc";
     "thread_1"; "joke"; "llm"; "print"; "gc";
     "thread_2"; "joke"; "llm"; "print"; "gc";
     "thread_3"; "joke"; "llm"; "print"; "gc";
     "thread_4"; "joke"; "llm"; "print"; "gc"].
Proof. vm_compute. reflexivity. Qed.

(** What the third round prints. *)
Example script_third_joke :
  log (script echo_model configured_world).2 !! 17
  = Some (Print "Tell me a joke about elephants 2.").
Proof. vm_compute. reflexivity. Qed.

(** A second invocation on the same thread finds the first exchange in
    the saver and appends to it. *)
Example same_thread_accumulates :
  let g := graph echo_model sample_llm MemorySaver in
  let w1 := (run_graph g "cats" "t" sample_world).2 in
  let w2 := (run_graph g "dogs" "t" w1).2 in
  thread_messages w2 "t"
  = [HumanMessage "cats"; AIMessage "Tell me a joke about cats.";
     HumanMessage "dogs"; AIMessage "Tell me a joke about dogs."].
Proof. vm_compute. reflexivity. Qed.

(** An empty-string topic is still the topic: the fallback looks at the
    list, not at the text. *)
Example empty_topic_is_not_the_default :
  log (run_graph (graph echo_model sample_llm MemorySaver) "" "t"
         sample_world).2 !! 2
  = Some (LlmCall sample_llm [HumanMessage "Tell me a joke about ."]).
Proof. vm_compute. reflexivity. Qed.

(** A state without the [messages] key makes the node raise before any
    request is made. *)
Example joke_node_missing_key :
  joke_node echo_model sample_llm ∅ sample_world
  = (Raise (KeyError "messages"), sample_world).
Proof. vm_compute. reflexivity. Qed.

(** Start-up with the key and the endpoint set builds the client, with
    the two defaults. *)
Example make_llm_sample : (make_llm configured_world).1 = Ok sample_llm.
Proof. vm_compute. reflexivity. Qed.

(** Start-up with only the key set, in the file read by [load_dotenv]:
    the endpoint is handed to the constructor as [None], and the
    constructor raises. *)
Example make_llm_without_endpoint :
  let w := {| environ := ∅;
              dotenv := {[ "AZURE_OPENAI_API_KEY" := "secret" ]};
              checkpoints := ∅; heap := ∅; log := [] |} in
  (llm_arguments w).1
  = Ok {| azure_endpoint := None;
          api_key := Some "secret";
          api_version := Some "2024-12-01-preview";
          azure_deployment := Some "gpt-4o-mini";
          temperature := 0;
          streaming := false |} /\
  exists e, (make_llm w).1 = Raise e.
Proof. vm_compute. split; [|eexists]; reflexivity. Qed.

(** An empty value is a value: the default is not used, the constructor
    is handed the empty API version, and raises. *)
Example make_llm_empty_version :
  let w := {| environ := {[ "AZURE_OPENAI_API_VERSION" := "";
                             "AZURE_OPENAI_API_KEY" := "secret";
                             "AZURE_OPENAI_ENDPOINT" := "https://example.invalid" ]};
              dotenv := ∅; checkpoints := ∅; heap := ∅; log := [] |} in
  api_version
    <$> match (llm_arguments w).1 with
        | Ok kwargs => Some kwargs
        | Raise _ => None
        end
  = Some (Some "") /\
  exists e, (make_llm w).1 = Raise e.
Proof. vm_compute. split; [|eexists]; reflexivity. Qed.

(** The node over a store with a state dict at 0, its list at 1 and one
    message at 2: three new objects, the old ones as they were. *)
Example joke_node_ref_sample :
  let h : gmap loc Obj :=
    {[ 0 := ODict {[ "messages" := 1 ]};
       1 := OList [2];
       2 := OMessage (HumanMessage "cats") ]} in
  let r := joke_node_ref echo_model sample_llm 0 (set_heap h sample_world) in
  r.1 = Ok 5 /\
  heap r.2 !! 0 = Some (ODict {[ "messages" := 1 ]}) /\
  heap r.2 !! 1 = Some (OList [2]) /\
  heap r.2 !! 2 = Some (OMessage (HumanMessage "cats")) /\
  heap r.2 !! 3 = Some (OMessage (AIMessage "Tell me a joke about cats.")) /\
  heap r.2 !! 4 = Some (OList [3]) /\
  heap r.2 !! 5 = Some (ODict {[ "messages" := 4 ]}).
Proof. vm_compute. repeat split. Qed.

(** * Further properties of the graph, of [run_graph] and of the script *)

Section Further.

Variable remote : list Event -> list Message -> Outcome Message.

Local Abbreviation request topic :=
  [HumanMessage ("Tell me a joke about " +:+ topic +:+ ".")] (only parsing).

(** ** One invocation, on any input *)

(** The state the node starts on always has the [messages] channel, so
    line 34 always yields a topic there. *)
Lemma entry_state_topic_any w tid (input : dict) w' :
  topic_of (entry_state w tid input) w'
  = (Ok (default "elephants"
           (content <$> last (thread_messages w tid
                              ++ default [] (input !! "messages")))), w').
Proof.
  apply topic_of_some. rewrite entry_state_eq. apply lookup_singleton_eq.
Qed.

Lemma invoke_graph_any llm cp (input : dict) tid w :
  invoke (graph remote llm cp) input tid w
  = let all := thread_messages w tid ++ default [] (input !! "messages") in
    let topic := default "elephants" (content <$> last all) in
    let st := entry_state w tid input in
    let evs := [GraphInvoke tid; NodeStart "joke" st] in
    match remote (log w ++ evs) (request topic) with
    | Ok a =>
        (Ok {[ "messages" := all ++ [a] ]},
         {| environ := environ w; dotenv := dotenv w;
            checkpoints :=
              <[tid := {[ "messages" := all ++ [a] ]}]>
                (<[tid := st]> (checkpoints w));
            heap := heap w;
            log := log w ++ evs ++ [LlmCall llm (request topic)] |})
    | Raise e =>
        (Raise e,
         {| environ := environ w; dotenv := dotenv w;
            checkpoints := <[tid := st]> (checkpoints w);
            heap := heap w;
            log := log w ++ evs ++ [LlmCall llm (request topic)] |})
    end.
Proof.
  rewrite (invoke_graph remote llm cp input tid w _
             (entry_state_topic_any w tid input)).
  cbv zeta. destruct (remote _ _) as [a|e]; [|done].
  rewrite apply_writes_State, entry_state_eq, !lookup_singleton_eq. done.
Qed.

(** X1: an invocation of the script's graph, on any input dict and any
    thread, starts the node exactly once, on the saved channels with the
    input folded in, and sends exactly one request; it returns the state
    with the answer appended when the model answers, and raises exactly
    the model's error otherwise (never an error of the engine). *)
Theorem invoke_runs_node_once llm cp (input : dict) tid w :
  exists evs request_sent,
    log (invoke (graph remote llm cp) input tid w).2 = log w ++ evs /\
    invocations evs = [tid] /\
    node_starts evs = [("joke", entry_state w tid input)] /\
    requests evs = [request_sent] /\
    (invoke (graph remote llm cp) input tid w).1
    = match remote (log w ++ [GraphInvoke tid;
                              NodeStart "joke" (entry_state w tid input)])
                   request_sent with
      | Ok a =>
          Ok {[ "messages" := thread_messages w tid
                              ++ default [] (input !! "messages") ++ [a] ]}
      | Raise e => Raise e
      end.
Proof.
  rewrite invoke_graph_any. cbv zeta.
  destruct (remote _ _) as [a|e] eqn:Hr;
    eexists _, _; (split; [reflexivity|]); cbn [app invocations node_starts requests fst snd];
    rewrite Hr, <- ?app_assoc; done.
Qed.

(** X2: the topic of an invocation is the content of the last message
    among those the saver holds for the thread followed by those of the
    input; the fallback "elephants" is what is asked about when both are
    empty. *)
Theorem invoke_topic_from_thread_and_input llm cp (input : dict) tid w :
  exists evs,
    log (invoke (graph remote llm cp) input tid w).2 = log w ++ evs /\
    (thread_messages w tid ++ default [] (input !! "messages") = [] ->
     requests evs = [request "elephants"]) /\
    (forall m,
       last (thread_messages w tid ++ default [] (input !! "messages"))
       = Some m ->
       requests evs = [request (content m)]).
Proof.
  rewrite invoke_graph_any. cbv zeta.
  destruct (remote _ _) as [a|e];
    (eexists; split; [reflexivity|]);
    cbn [app requests]; (split; [intros ->|intros m ->]); reflexivity.
Qed.

(** ** One call of [run_graph] *)

(** X3: when the model answers, [run_graph] ends normally, having
    invoked the graph once, sent one request about its topic, printed
    the content of the answer and forced one collection, in that order;
    the access to the last message of the result is in range. *)
Theorem run_graph_prints_answer llm cp topic tid w a :
  remote (log w ++ [GraphInvoke tid;
                    NodeStart "joke" (entry_state w tid (initial_state topic))])
         (request topic) = Ok a ->
  exists w',
    run_graph (graph remote llm cp) topic tid w = (Ok tt, w') /\
    log w' = log w ++ [GraphInvoke tid;
                       NodeStart "joke"
                         (entry_state w tid (initial_state topic));
                       LlmCall llm (request topic);
                       Print (content a);
                       GcCollect].
Proof.
  intros Ha. rewrite run_graph_eq. cbv zeta. rewrite Ha.
  eexists. split; reflexivity.
Qed.

(** X4: whatever the model does, [run_graph] leaves the environment, the
    entries of the .env file and the saved state of every other thread
    as they were. *)
Theorem run_graph_frame llm cp topic tid w :
  environ (run_graph (graph remote llm cp) topic tid w).2 = environ w /\
  dotenv (run_graph (graph remote llm cp) topic tid w).2 = dotenv w /\
  (forall tid',
     tid' <> tid ->
     checkpoints (run_graph (graph remote llm cp) topic tid w).2 !! tid'
     = checkpoints w !! tid').
Proof.
  rewrite run_graph_eq. cbv zeta.
  destruct (remote _ _) as [a|e];
    cbn [snd environ dotenv checkpoints];
    repeat split; intros tid' Hne;
    rewrite ?lookup_insert_ne by done; done.
Qed.

Lemma run_graph_thread llm cp topic tid w a :
  remote (log w ++ [GraphInvoke tid;
                    NodeStart "joke" (entry_state w tid (initial_state topic))])
         (request topic) = Ok a ->
  thread_messages (run_graph (graph remote llm cp) topic tid w).2 tid
  = thread_messages w tid ++ [HumanMessage topic; a].
Proof.
  intros Ha. rewrite run_graph_eq. cbv zeta. rewrite Ha.
  unfold thread_messages at 1. cbn [snd checkpoints].
  rewrite lookup_insert_eq. simpl.
  rewrite apply_writes_State, entry_state_eq. unfold initial_state.
  rewrite !lookup_singleton_eq. simpl. by rewrite <- app_assoc.
Qed.

(** X5: after a call of [run_graph] that the model answered, the saver
    holds for the thread what it held before, then the human message
    with the topic, then the answer: two messages more. *)
Theorem run_graph_appends_exchange llm cp topic tid w a :
  remote (log w ++ [GraphInvoke tid;
                    NodeStart "joke" (entry_state w tid (initial_state topic))])
         (request topic) = Ok a ->
  thread_messages (run_graph (graph remote llm cp) topic tid w).2 tid
  = thread_messages w tid ++ [HumanMessage topic; a] /\
  length (thread_messages (run_graph (graph remote llm cp) topic tid w).2 tid)
  = length (thread_messages w tid) + 2.
Proof.
  intros Ha. rewrite (run_graph_thread llm cp topic tid w a Ha).
  split; [done|]. by rewrite length_app.
Qed.

(** ** Reading a log piece by piece *)

Lemma invocations_app l1 l2 :
  invocations (l1 ++ l2) = invocations l1 ++ invocations l2.
Proof.
  induction l1 as [|e l1 IH]; [done|]. destruct e; cbn; by rewrite ?IH.
Qed.

Lemma node_starts_app l1 l2 :
  node_starts (l1 ++ l2) = node_starts l1 ++ node_starts l2.
Proof.
  induction l1 as [|e l1 IH]; [done|]. destruct e; cbn; by rewrite ?IH.
Qed.

Lemma requests_app l1 l2 : requests (l1 ++ l2) = requests l1 ++ requests l2.
Proof.
  induction l1 as [|e l1 IH]; [done|]. destruct e; cbn; by rewrite ?IH.
Qed.

Lemma printed_app l1 l2 : printed (l1 ++ l2) = printed l1 ++ printed l2.
Proof.
  induction l1 as [|e l1 IH]; [done|]. destruct e; cbn; by rewrite ?IH.
Qed.

Lemma collections_app l1 l2 :
  collections (l1 ++ l2) = collections l1 + collections l2.
Proof.
  induction l1 as [|e l1 IH]; [done|]. destruct e; cbn; by rewrite ?IH.
Qed.

Lemma llm_calls_app l1 l2 : llm_calls (l1 ++ l2) = llm_calls l1 + llm_calls l2.
Proof. unfold llm_calls. by rewrite filter_app, length_app. Qed.

Lemma llm_calls_cons e l :
  llm_calls (e :: l) = (if is_llm_call e then 1 else 0) + llm_calls l.
Proof.
  change (e :: l) with ([e] ++ l). rewrite llm_calls_app.
  by destruct e.
Qed.

(** ** Several calls of [run_graph] *)

Lemma entry_state_fresh w tid topic :
  checkpoints w !! tid = None ->
  entry_state w tid (initial_state topic) = initial_state topic.
Proof.
  intros Hnone. rewrite entry_state_eq. unfold thread_messages, initial_state.
  rewrite Hnone. simpl. rewrite lookup_empty, lookup_singleton_eq. done.
Qed.


(** Calls on pairwise distinct threads that the saver does not know yet. *)
Lemma calls_on_fresh_threads {A} (tp th : A -> string) llm cp (xs : list A) w :
  (forall l input, exists a, remote l input = Ok a) ->
  NoDup (th <$> xs) ->
  (forall x, x ∈ xs -> checkpoints w !! th x = None) ->
  exists w' evs,
    for_each xs (fun x => run_graph (graph remote llm cp) (tp x) (th x)) w
    = (Ok tt, w') /\
    log w' = log w ++ evs /\
    node_starts evs = (fun x => ("joke", initial_state (tp x))) <$> xs /\
    (forall x, x ∈ xs ->
       exists a, thread_messages w' (th x) = [HumanMessage (tp x); a]) /\
    (forall tid, tid ∉ th <$> xs -> checkpoints w' !! tid = checkpoints w !! tid).
Proof.
  intros Hanswer. revert w.
  induction xs as [|x xs IH]; intros w Hdup Hfresh.
  - exists w, []. rewrite app_nil_r.
    split; [done|]. split; [done|]. split; [done|]. split; [|done].
    intros x Hx. by apply elem_of_nil in Hx.
  - rewrite fmap_cons in Hdup. apply NoDup_cons in Hdup as [Hx Hdup].
    assert (Hst : entry_state w (th x) (initial_state (tp x))
                  = initial_state (tp x))
      by (apply entry_state_fresh, Hfresh; left).
    cbn [for_each]. unfold bind. rewrite run_graph_eq. cbv zeta.
    rewrite Hst.
    destruct (Hanswer (log w ++ [GraphInvoke (th x);
                                 NodeStart "joke" (initial_state (tp x))])
                      (request (tp x))) as [a Ha].
    rewrite Ha.
    match goal with
    | |- context [for_each xs _ ?w1] =>
        destruct (IH w1 Hdup) as (w' & evs & Hrun & Hlog & Hstarts & Hmsgs & Hframe)
    end.
    { intros y Hy. cbn [checkpoints].
      assert (th y <> th x).
      { intros Heq. apply Hx. rewrite <- Heq. by apply list_elem_of_fmap_2. }
      rewrite !lookup_insert_ne by done. apply Hfresh. by right. }
    exists w'. eexists. split; [exact Hrun|]. split.
    { rewrite Hlog. cbn [log]. rewrite <- !app_assoc. reflexivity. }
    cbn [app node_starts]. split; [by rewrite Hstarts|]. split.
    + intros y Hy. apply elem_of_cons in Hy as [->|Hy]; [|by apply Hmsgs].
      exists a. unfold thread_messages. rewrite (Hframe _ Hx).
      cbn [checkpoints]. rewrite lookup_insert_eq. simpl.
      rewrite apply_writes_State. unfold initial_state.
      by rewrite !lookup_singleton_eq.
    + intros tid Htid. rewrite fmap_cons in Htid.
      apply not_elem_of_cons in Htid as [Hne Htid].
      rewrite (Hframe _ Htid). cbn [checkpoints].
      by rewrite !lookup_insert_ne.
Qed.

(** X7: calls of [run_graph] on pairwise distinct threads that the saver
    does not hold yet do not see each other: when the model answers,
    every call starts the node on exactly its own initial state, and
    afterwards every thread holds exactly its own human message and the
    answer to it; threads that were not called are untouched. *)
Theorem fresh_threads_do_not_leak {A} (tp th : A -> string) llm cp
    (xs : list A) w :
  (forall l input, exists a, remote l input = Ok a) ->
  NoDup (th <$> xs) ->
  (forall x, x ∈ xs -> checkpoints w !! th x = None) ->
  exists w' evs,
    for_each xs (fun x => run_graph (graph remote llm cp) (tp x) (th x)) w
    = (Ok tt, w') /\
    log w' = log w ++ evs /\
    node_starts evs = (fun x => ("joke", initial_state (tp x))) <$> xs /\
    (forall x, x ∈ xs ->
       exists a, thread_messages w' (th x) = [HumanMessage (tp x); a]) /\
    (forall tid, tid ∉ th <$> xs -> checkpoints w' !! tid = checkpoints w !! tid).
Proof. apply calls_on_fresh_threads. Qed.

(** ** The script *)

Lemma script_threads_distinct :
  NoDup ((fun i : nat => "thread_" +:+ pretty i) <$> range 5).
Proof. apply NoDup_ListNoDup. vm_compute. repeat constructor; cbn; intuition discriminate. Qed.

(** X8: the script starts from an empty saver and uses a thread of its
    own for every iteration, so, when line 20 builds the client and the
    model answers, every iteration starts the node on exactly one
    message, its own, whatever the saver held before the script; at the
    end thread [i] holds the human message of iteration [i] and the
    answer to it, nothing else. *)
Theorem script_threads_isolated w llm :
  (make_llm w).1 = Ok llm ->
  (forall l input, exists a, remote l input = Ok a) ->
  exists w' evs,
    script remote w = (Ok tt, w') /\
    log w' = log w ++ evs /\
    node_starts evs
    = (fun i : nat => ("joke", initial_state ("elephants " +:+ pretty i)))
        <$> range 5 /\
    (forall i : nat,
       i < 5 ->
       exists a,
         thread_messages w' ("thread_" +:+ pretty i)
         = [HumanMessage ("elephants " +:+ pretty i); a]).
Proof.
  intros Hstart Hanswer. rewrite (script_started remote w llm Hstart).
  unfold main.
  destruct (calls_on_fresh_threads
              (fun i : nat => "elephants " +:+ pretty i)
              (fun i : nat => "thread_" +:+ pretty i)
              llm MemorySaver (range 5) (set_checkpoints ∅ (after_startup w))
              Hanswer script_threads_distinct)
    as (w' & evs & Hrun & Hlog & Hstarts & Hmsgs & _).
  { intros i _. apply lookup_empty. }
  exists w'. eexists. split; [exact Hrun|]. split.
  { rewrite Hlog. cbn [set_checkpoints after_startup log].
    rewrite <- app_assoc. reflexivity. }
  rewrite node_starts_app. split; [exact Hstarts|].
  intros i Hi. apply Hmsgs. unfold range. apply elem_of_seq. lia.
Qed.

(** The shape of the log of several calls, whatever the model does. *)
Lemma calls_shape {A} (tp th : A -> string) llm cp (xs : list A) w :
  exists evs,
    log (for_each xs
           (fun x => run_graph (graph remote llm cp) (tp x) (th x)) w).2
    = log w ++ evs /\
    invocations evs `prefix_of` (th <$> xs) /\
    llm_calls evs = length (invocations evs) /\
    length (printed evs) = collections evs /\
    match (for_each xs
             (fun x => run_graph (graph remote llm cp) (tp x) (th x)) w).1
    with
    | Ok _ => invocations evs = th <$> xs /\ collections evs = length xs
    | Raise _ => S (collections evs) = length (invocations evs)
    end.
Proof.
  revert w. induction xs as [|x xs IH]; intros w.
  - exists []. cbn. rewrite app_nil_r. repeat split; done.
  - cbn [for_each]. unfold bind. rewrite run_graph_eq. cbv zeta.
    destruct (remote _ _) as [a|e].
    + match goal with
      | |- context [for_each xs _ ?w1] =>
          destruct (IH w1) as (evs & Hlog & Hpre & Hcalls & Hprint & Hout)
      end.
      eexists. split.
      { rewrite Hlog. cbn [log]. rewrite <- !app_assoc. reflexivity. }
      cbn [app invocations printed collections length].
      rewrite fmap_cons. split; [by apply prefix_cons|].
      split.
      { rewrite !llm_calls_cons, Hcalls. reflexivity. }
      split; [by rewrite Hprint|].
      destruct (for_each xs _ _) as [[[]|e] w2]; cbn [fst] in *.
      * destruct Hout as [-> ->]. done.
      * by rewrite Hout.
    + cbn [fst snd log]. eexists. split; [reflexivity|].
      cbn [app invocations printed collections length].
      rewrite fmap_cons. split; [apply prefix_cons, prefix_nil|].
      rewrite !llm_calls_cons. repeat split; reflexivity.
Qed.

(** X9: whatever the settings are and whatever the model does, the
    threads the script invokes are a prefix of [thread_0] .. [thread_4]
    (so pairwise distinct), there are as many requests as invocations
    and as many prints as collections.  When line 20 raises, the script
    ends with that error and has invoked nothing.  When it builds the
    client, a run that ends normally has made all five collections, and
    a run that ends with an error is one collection short of its
    invocations, the one of the call that raised. *)
Theorem script_log_invariant w :
  exists evs,
    log (script remote w).2 = log w ++ evs /\
    invocations evs
      `prefix_of` ["thread_0"; "thread_1"; "thread_2"; "thread_3"; "thread_4"] /\
    NoDup (invocations evs) /\
    llm_calls evs = length (invocations evs) /\
    length (printed evs) = collections evs /\
    match (make_llm w).1, (script remote w).1 with
    | Raise e, out => out = Raise e /\ invocations evs = []
    | Ok _, Ok _ => length (invocations evs) = 5 /\ collections evs = 5
    | Ok _, Raise _ => S (collections evs) = length (invocations evs)
    end.
Proof.
  destruct (make_llm w).1 as [llm|e] eqn:Hstart; cycle 1.
  { rewrite (script_not_started remote w e Hstart). cbn [fst snd].
    eexists. split; [reflexivity|].
    cbn. split; [apply prefix_nil|]. split; [constructor|]. done. }
  rewrite (script_started remote w llm Hstart). unfold main.
  destruct (calls_shape (fun i : nat => "elephants " +:+ pretty i)
                        (fun i : nat => "thread_" +:+ pretty i)
                        llm MemorySaver (range 5)
                        (set_checkpoints ∅ (after_startup w)))
    as (evs & Hlog & Hpre & Hcalls & Hprint & Hout).
  eexists. split.
  { rewrite Hlog. cbn [set_checkpoints after_startup log].
    rewrite <- app_assoc. reflexivity. }
  rewrite invocations_app, llm_calls_app, printed_app, collections_app.
  cbn [invocations printed collections app length].
  rewrite !llm_calls_cons. cbn [is_llm_call Nat.add].
  change (llm_calls []) with 0. cbn [Nat.add].
  split; [exact Hpre|]. split.
  { destruct Hpre as [k Hk]. pose proof script_threads_distinct as Hdup.
    rewrite Hk in Hdup. by apply NoDup_app in Hdup as [? _]. }
  split; [done|]. split; [done|].
  destruct (for_each _ _ _) as [[[]|e] w2]; cbn [fst] in *; [|done].
  destruct Hout as [-> ->]. done.
Qed.

(** Calls answered by a function of the request. *)
Lemma calls_print_answers {A} (tp th : A -> string) f llm cp (xs : list A) w :
  (forall l input, remote l input = Ok (f input)) ->
  exists w' evs,
    for_each xs (fun x => run_graph (graph remote llm cp) (tp x) (th x)) w
    = (Ok tt, w') /\
    log w' = log w ++ evs /\
    requests evs = (fun x => request (tp x)) <$> xs /\
    printed evs = (fun x => content (f (request (tp x)))) <$> xs.
Proof.
  intros Hf. revert w. induction xs as [|x xs IH]; intros w.
  - exists w, []. by rewrite app_nil_r.
  - cbn [for_each]. unfold bind. rewrite run_graph_eq. cbv zeta. rewrite Hf.
    match goal with
    | |- context [for_each xs _ ?w1] =>
        destruct (IH w1) as (w' & evs & Hrun & Hlog & Hreq & Hprint)
    end.
    exists w'. eexists. split; [exact Hrun|]. split.
    { rewrite Hlog. cbn [log]. rewrite <- !app_assoc. reflexivity. }
    cbn [app requests printed]. rewrite Hreq, Hprint. done.
Qed.

(** X12: when the model raises, [run_graph] raises the same error right
    after the request: nothing is printed and the collection of line 56
    is not reached. *)
Theorem run_graph_failure_skips_print_and_collect llm cp topic tid w e :
  remote (log w ++ [GraphInvoke tid;
                    NodeStart "joke" (entry_state w tid (initial_state topic))])
         (request topic) = Raise e ->
  exists evs,
    (run_graph (graph remote llm cp) topic tid w).1 = Raise e /\
    log (run_graph (graph remote llm cp) topic tid w).2 = log w ++ evs /\
    requests evs = [request topic] /\
    printed evs = [] /\
    collections evs = 0.
Proof.
  intros He. rewrite run_graph_eq. cbv zeta. rewrite He.
  eexists. split; [reflexivity|]. split; [reflexivity|]. repeat split.
Qed.

End Further.
(** ** Calls that share a thread *)

(** X6: calls of [run_graph] that share one thread accumulate: with a
    model that answers by a function [f] of the request, after the calls
    the saver holds for the thread what it held before followed by, for
    each topic in order, the human message and the answer; and each
    request is about the topic of its own call, whatever the thread
    already holds. *)
Theorem repeated_calls_accumulate f llm cp tid (topics : list string) w :
  exists w' evs,
    for_each topics
      (fun t => run_graph (graph (answering f) llm cp) t tid) w
    = (Ok tt, w') /\
    log w' = log w ++ evs /\
    requests evs
    = map (fun t => [HumanMessage ("Tell me a joke about " +:+ t +:+ ".")])
          topics /\
    thread_messages w' tid
    = thread_messages w tid
      ++ flat_map
           (fun t =>
              [HumanMessage t;
               f [HumanMessage ("Tell me a joke about " +:+ t +:+ ".")]])
           topics.
Proof.
  revert w. induction topics as [|t topics IH]; intros w.
  - exists w, []. cbn. by rewrite !app_nil_r.
  - cbn [for_each]. unfold bind.
    pose proof (run_graph_thread (answering f) llm cp t tid w
                  (f [HumanMessage ("Tell me a joke about " +:+ t +:+ ".")])
                  eq_refl) as Hthread.
    rewrite run_graph_eq in Hthread |- *. cbv zeta in Hthread |- *.
    unfold answering at 1 in Hthread. unfold answering at 1.
    cbv beta iota in Hthread |- *.
    match goal with
    | |- context [for_each topics _ ?w1] =>
        destruct (IH w1) as (w' & evs & Hrun & Hlog & Hreq & Hmsgs)
    end.
    exists w'. eexists. split; [exact Hrun|]. split.
    + rewrite Hlog. cbn [log]. rewrite <- !app_assoc. reflexivity.
    + cbn [app requests map flat_map]. split; [by rewrite Hreq|].
      rewrite Hmsgs. cbn [snd] in Hthread. rewrite Hthread.
      by rewrite <- app_assoc.
Qed.

(** ** What the script asks and prints *)

(** X10: when line 20 builds the client, with a model that answers by a
    function [f] of the request, the script sends the five requests
    about "elephants 0" to "elephants 4" in order and prints the content
    of the five answers in that order. *)
Theorem script_prints_answers f w llm :
  (make_llm w).1 = Ok llm ->
  exists w' evs,
    script (answering f) w = (Ok tt, w') /\
    log w' = log w ++ evs /\
    requests evs
    = (fun i : nat =>
         [HumanMessage ("Tell me a joke about elephants " +:+ pretty i +:+ ".")])
        <$> range 5 /\
    printed evs
    = (fun i : nat =>
         content
           (f [HumanMessage
                 ("Tell me a joke about elephants " +:+ pretty i +:+ ".")]))
        <$> range 5.
Proof.
  intros Hstart. rewrite (script_started (answering f) w llm Hstart).
  unfold main.
  destruct (calls_print_answers (answering f)
              (fun i : nat => "elephants " +:+ pretty i)
              (fun i : nat => "thread_" +:+ pretty i)
              f llm MemorySaver (range 5)
              (set_checkpoints ∅ (after_startup w)))
    as (w' & evs & Hrun & Hlog & Hreq & Hprint); [done|].
  exists w'. eexists. split; [exact Hrun|]. split.
  { rewrite Hlog. cbn [set_checkpoints after_startup log].
    rewrite <- app_assoc. reflexivity. }
  rewrite requests_app, printed_app. cbn [requests printed app].
  split; [exact Hreq|exact Hprint].
Qed.

(** ** Where the settings come from *)

(** X11: each of the four settings is looked up in the process
    environment first and in the .env file second; a value that is set,
    the empty string included, is handed to the constructor of line 20
    as it is, and only a variable set in neither place gives the default
    (for the API version and the deployment name) or [None] (for the key
    and the endpoint).  Lines 13-18 never raise; what line 20 makes of
    these arguments is the constructor's affair. *)
Theorem settings_precedence w :
  let setting name :=
    match environ w !! name with
    | Some v => Some v
    | None => dotenv w !! name
    end in
  (llm_arguments w).1
  = Ok {| azure_endpoint := setting "AZURE_OPENAI_ENDPOINT";
          api_key := setting "AZURE_OPENAI_API_KEY";
          api_version :=
            match setting "AZURE_OPENAI_API_VERSION" with
            | Some v => Some v
            | None => Some "2024-12-01-preview"
            end;
          azure_deployment :=
            match setting "AZURE_OPENAI_DEPLOYMENT_NAME" with
            | Some v => Some v
            | None => Some "gpt-4o-mini"
            end;
          temperature := 0;
          streaming := false |}.
Proof.
  intros setting. rewrite llm_arguments_eq. cbv zeta. cbn [fst]. subst setting.
  cbv beta. rewrite !lookup_union.
  repeat match goal with
         | |- context [environ w !! ?k] => destruct (environ w !! k)
         | |- context [dotenv w !! ?k] => destruct (dotenv w !! k)
         end; reflexivity.
Qed.

(** ** Instances on the sample inputs *)

Lemma run_graph_prints_answer_witness :
  exists w',
    run_graph (graph echo_model sample_llm MemorySaver) "cats" "t" sample_world
    = (Ok tt, w') /\
    log w'
    = log sample_world
      ++ [GraphInvoke "t";
          NodeStart "joke" (entry_state sample_world "t" (initial_state "cats"));
          LlmCall sample_llm
            [HumanMessage ("Tell me a joke about " +:+ "cats" +:+ ".")];
          Print (content (AIMessage "Tell me a joke about cats."));
          GcCollect].
Proof.
  apply (run_graph_prints_answer echo_model sample_llm MemorySaver
           "cats" "t" sample_world (AIMessage "Tell me a joke about cats.")).
  reflexivity.
Defined.

Lemma run_graph_appends_exchange_witness :
  thread_messages
    (run_graph (graph echo_model sample_llm MemorySaver) "cats" "t"
       sample_world).2 "t"
  = thread_messages sample_world "t"
    ++ [HumanMessage "cats"; AIMessage "Tell me a joke about cats."] /\
  length
    (thread_messages
       (run_graph (graph echo_model sample_llm MemorySaver) "cats" "t"
          sample_world).2 "t")
  = length (thread_messages sample_world "t") + 2.
Proof.
  apply (run_graph_appends_exchange echo_model sample_llm MemorySaver
           "cats" "t" sample_world (AIMessage "Tell me a joke about cats.")).
  reflexivity.
Defined.

Lemma run_graph_failure_skips_print_and_collect_witness :
  exists evs,
    (run_graph (graph failing_model sample_llm MemorySaver) "cats" "t"
       sample_world).1
    = Raise (RemoteError "connection refused") /\
    log (run_graph (graph failing_model sample_llm MemorySaver) "cats" "t"
           sample_world).2
    = log sample_world ++ evs /\
    requests evs
    = [[HumanMessage ("Tell me a joke about " +:+ "cats" +:+ ".")]] /\
    printed evs = [] /\
    collections evs = 0.
Proof.
  apply (run_graph_failure_skips_print_and_collect failing_model sample_llm
           MemorySaver "cats" "t" sample_world
           (RemoteError "connection refused")).
  reflexivity.
Defined.

Lemma fresh_threads_do_not_leak_witness :
  exists w' evs,
    for_each [("cats", "a"); ("dogs", "b")]
      (fun x : string * string =>
         run_graph (graph echo_model sample_llm MemorySaver) x.1 x.2)
      sample_world
    = (Ok tt, w') /\
    log w' = log sample_world ++ evs /\
    node_starts evs
    = (fun x : string * string => ("joke", initial_state x.1))
        <$> [("cats", "a"); ("dogs", "b")] /\
    (forall x : string * string,
       x ∈ [("cats", "a"); ("dogs", "b")] ->
       exists a, thread_messages w' x.2 = [HumanMessage x.1; a]) /\
    (forall tid,
       tid ∉ snd <$> [("cats", "a"); ("dogs", "b")] ->
       checkpoints w' !! tid = checkpoints sample_world !! tid).
Proof.
  apply (fresh_threads_do_not_leak echo_model fst snd sample_llm MemorySaver
           [("cats", "a"); ("dogs", "b")] sample_world).
  - intros l input. eexists. reflexivity.
  - apply NoDup_ListNoDup. repeat constructor; cbn; intuition discriminate.
  - intros x _. apply lookup_empty.
Defined.

Lemma script_threads_isolated_witness :
  exists w' evs,
    script echo_model configured_world = (Ok tt, w') /\
    log w' = log configured_world ++ evs /\
    node_starts evs
    = (fun i : nat => ("joke", initial_state ("elephants " +:+ pretty i)))
        <$> range 5 /\
    (forall i : nat,
       i < 5 ->
       exists a,
         thread_messages w' ("thread_" +:+ pretty i)
         = [HumanMessage ("elephants " +:+ pretty i); a]).
Proof.
  apply (script_threads_isolated echo_model configured_world sample_llm).
  - reflexivity.
  - intros l input. eexists. reflexivity.
Defined.

Lemma script_prints_answers_witness :
  exists w' evs,
    script (answering (fun input => AIMessage "ha")) configured_world
    = (Ok tt, w') /\
    log w' = log configured_world ++ evs /\
    requests evs
    = (fun i : nat =>
         [HumanMessage ("Tell me a joke about elephants " +:+ pretty i +:+ ".")])
        <$> range 5 /\
    printed evs
    = (fun i : nat =>
         content
           ((fun input : list Message => AIMessage "ha")
              [HumanMessage
                 ("Tell me a joke about elephants " +:+ pretty i +:+ ".")]))
        <$> range 5.
Proof.
  apply (script_prints_answers (fun input => AIMessage "ha") configured_world
           sample_llm).
  reflexivity.
Defined.
